(** * vulcan: the proxy's request lifecycle and the scripting-layer error mapping

    A shallow embedding of

    - [control/js/error.go]: [errorToJs], [errorFromJs], [errorFromDict];
    - [proxy.go]: [ServeHTTP], [proxyRequest], [replyError], [validateOptions];
    - the round trip of one attempt of a location, as far as
      [location/httploc/httploc_test.go] exercises it.

    Go values that the code inspects by dynamic type ([interface{}], [error])
    are tagged unions; Go's multiple results [(x, err)] are pairs of options
    where the code tests both halves separately, and sums where exactly one
    half is ever non-nil. *)

From Stdlib Require Import ZArith String Ascii List Lia Bool.
From Stdlib Require Import Floats.SpecFloat.
From stdpp Require Import gmap strings.

#[local] Set Warnings "-register-all".
#[local] Open Scope Z_scope.

(** ** Go scalars *)

Module Go.

Definition bytes : Type := list Byte.byte.

Definition minInt64 : Z := - 2 ^ 63.
Definition maxInt64 : Z := 2 ^ 63 - 1.

(** Two's complement wrap-around of a 64-bit signed integer. *)
Definition wrap64 (n : Z) : Z := (n + 2 ^ 63) mod 2 ^ 64 - 2 ^ 63.

Lemma wrap64_in_range (n : Z) : minInt64 <= n <= maxInt64 -> wrap64 n = n.
Proof.
  unfold wrap64, minInt64, maxInt64. intros Hn.
  rewrite Z.mod_small by lia. lia.
Qed.

Lemma wrap64_range (n : Z) : minInt64 <= wrap64 n <= maxInt64.
Proof.
  unfold wrap64, minInt64, maxInt64.
  pose proof (Z.mod_pos_bound (n + 2 ^ 63) (2 ^ 64) ltac:(lia)). lia.
Qed.

End Go.

(** ** float64

    A [float64] is an IEEE 754 binary64 value: [spec_float] at precision 53
    and maximal exponent 1024. *)

Module Float64.

Definition prec : Z := 53.
Definition emax : Z := 1024.

Definition float64 : Type := spec_float.

Definition valid (f : float64) : Prop := valid_binary prec emax f = true.

(** [int(f)]: the fraction is discarded. Where the truncated value does not
    fit an [int] (64 bits), or [f] is an infinity or NaN, Go leaves the
    result to the implementation; amd64 yields the smallest [int]. *)
Definition toInt (f : float64) : Z :=
  match f with
  | S754_zero _ => 0
  | S754_finite s m e =>
      let t := cond_Zopp s (Z.shiftl (Zpos m) e) in
      if (Go.minInt64 <=? t) && (t <=? Go.maxInt64) then t else Go.minInt64
  | S754_infinity _ | S754_nan => Go.minInt64
  end.

(** [float64(n)]: the nearest binary64, ties to even. *)
Definition ofInt (n : Z) : float64 := binary_normalize prec emax n 0 false.

(** [f == g] *)
Definition eqb (f g : float64) : bool := SFeqb f g.

(** The integer a float is, when it is one: what "a code that is an
    integer" says of a [float64]. *)
Definition integral (f : float64) : option Z :=
  match f with
  | S754_zero _ => Some 0
  | S754_finite s m e =>
      if 0 <=? e then Some (cond_Zopp s (Zpos m * 2 ^ e))
      else if Zpos m mod 2 ^ (- e) =? 0
           then Some (cond_Zopp s (Zpos m / 2 ^ (- e)))
           else None
  | S754_infinity _ | S754_nan => None
  end.

(** *** The integrality test [f == float64(int(f))] *)

Lemma iter_pos_iter {A} (f : A -> A) p : forall x, SpecFloat.iter_pos f p x = Pos.iter f x p.
Proof.
  induction p as [p IH | p IH |]; intros x; simpl.
  - rewrite !IH. rewrite <- !Pos.iter_swap. reflexivity.
  - rewrite !IH. reflexivity.
  - reflexivity.
Qed.

Lemma Zpos_iter_xO m p : Zpos (Pos.iter xO m p) = Zpos m * 2 ^ Zpos p.
Proof.
  induction p as [| p IH] using Pos.peano_ind.
  - simpl. lia.
  - rewrite Pos.iter_succ, Pos2Z.inj_succ, Z.pow_succ_r by lia.
    rewrite Pos2Z.inj_xO, IH. lia.
Qed.

Lemma digits2_pos_iter_xO m p :
  Zpos (digits2_pos (Pos.iter xO m p)) = Zpos (digits2_pos m) + Zpos p.
Proof.
  induction p as [| p IH] using Pos.peano_ind.
  - simpl. lia.
  - rewrite Pos.iter_succ. simpl digits2_pos. lia.
Qed.

Lemma digits2_pos_bounds m :
  2 ^ (Zpos (digits2_pos m) - 1) <= Zpos m < 2 ^ Zpos (digits2_pos m).
Proof.
  induction m as [m IH | m IH |]; simpl digits2_pos.
  - rewrite Pos2Z.inj_succ, Z.pow_succ_r by lia.
    replace (Z.succ (Zpos (digits2_pos m)) - 1) with (Z.succ (Zpos (digits2_pos m) - 1)) by lia.
    rewrite Z.pow_succ_r by lia. lia.
  - rewrite Pos2Z.inj_succ, Z.pow_succ_r by lia.
    replace (Z.succ (Zpos (digits2_pos m)) - 1) with (Z.succ (Zpos (digits2_pos m) - 1)) by lia.
    rewrite Z.pow_succ_r by lia. lia.
  - simpl. lia.
Qed.

Lemma shr_iter_xO m p :
  Pos.iter shr_1 (Build_shr_record (Zpos (Pos.iter xO m p)) false false) p
  = Build_shr_record (Zpos m) false false.
Proof.
  induction p as [| p IH] using Pos.peano_ind.
  - reflexivity.
  - rewrite (Pos.iter_succ p _ xO). rewrite Pos.iter_succ, <- Pos.iter_swap.
    simpl shr_1. exact IH.
Qed.

(** A mantissa of 53 digits at an exponent in range is left as it is. *)
Lemma binary_round_aux_canonical s m e :
  Zpos (digits2_pos m) = 53 -> -1074 <= e <= 971 ->
  binary_round_aux prec emax s (Zpos m) e loc_Exact = S754_finite s m e.
Proof.
  intros Hd He. unfold binary_round_aux, shr_fexp, fexp, emin, prec, emax.
  cbn [Zdigits2 shr_record_of_loc]. rewrite Hd.
  replace (Z.max (53 + e - 53) (3 - 1024 - 53) - e) with 0 by lia.
  cbn [shr shr_m loc_of_shr_record round_nearest_even Zdigits2].
  rewrite Hd.
  replace (Z.max (53 + e - 53) (3 - 1024 - 53) - e) with 0 by lia.
  cbn [shr shr_m shr_record_of_loc].
  replace (e <=? 1024 - 53) with true by (symmetry; apply Z.leb_le; lia).
  reflexivity.
Qed.

(** Converting a positive integer of at most 53 binary digits is exact:
    the mantissa is padded with zeros to 53 digits. *)
Lemma binary_round_small s q :
  Zpos (digits2_pos q) <= 53 ->
  exists m, binary_round prec emax s q 0
            = S754_finite s m (Zpos (digits2_pos q) - 53)
            /\ Zpos m = Zpos q * 2 ^ (53 - Zpos (digits2_pos q)).
Proof.
  intros Hd. unfold binary_round, shl_align, fexp, emin, prec, emax.
  replace (Z.max (Zpos (digits2_pos q) + 0 - 53) (3 - 1024 - 53) - 0)
    with (Zpos (digits2_pos q) - 53) by lia.
  replace (Z.max (Zpos (digits2_pos q) + 0 - 53) (3 - 1024 - 53))
    with (Zpos (digits2_pos q) - 53) by lia.
  destruct (Zpos (digits2_pos q) - 53) as [| j | j] eqn:Hj; try lia.
  - exists q. split.
    + apply binary_round_aux_canonical; lia.
    + replace (53 - Zpos (digits2_pos q)) with 0 by lia. lia.
  - exists (Pos.iter xO q j). split.
    + apply binary_round_aux_canonical; [| lia].
      rewrite digits2_pos_iter_xO. lia.
    + rewrite Zpos_iter_xO. f_equal. f_equal. lia.
Qed.

(** Converting an integer whose low [e] bits are zero and whose other bits
    are a 53-digit mantissa is exact as well: the zeros are shifted out. *)
Lemma binary_round_shifted s m e :
  Zpos (digits2_pos m) = 53 -> 0 < Zpos e <= 971 ->
  binary_round prec emax s (Pos.iter xO m e) 0 = S754_finite s m (Zpos e).
Proof.
  intros Hd He. unfold binary_round, shl_align, fexp, emin, prec, emax.
  rewrite digits2_pos_iter_xO, Hd.
  replace (Z.max (53 + Zpos e + 0 - 53) (3 - 1024 - 53) - 0) with (Zpos e) by lia.
  unfold binary_round_aux, shr_fexp, fexp, emin.
  cbn [Zdigits2 shr_record_of_loc]. rewrite digits2_pos_iter_xO, Hd.
  replace (Z.max (53 + Zpos e + 0 - 53) (3 - 1024 - 53) - 0) with (Zpos e) by lia.
  cbn [shr]. rewrite iter_pos_iter, shr_iter_xO.
  cbn [shr_m loc_of_shr_record round_nearest_even Zdigits2]. rewrite Hd.
  replace (Z.max (53 + (0 + Zpos e) - 53) (3 - 1024 - 53) - (0 + Zpos e)) with 0 by lia.
  cbn [shr shr_m shr_record_of_loc].
  replace (0 + Zpos e <=? 1024 - 53) with true by (symmetry; apply Z.leb_le; lia).
  reflexivity.
Qed.

Lemma eqb_finite_refl s m e : eqb (S754_finite s m e) (S754_finite s m e) = true.
Proof.
  unfold eqb, SFeqb, SFcompare.
  rewrite Z.compare_refl, Pos.compare_cont_refl. destruct s; reflexivity.
Qed.

Lemma eqb_finite_inv s1 m1 e1 s2 m2 e2 :
  eqb (S754_finite s1 m1 e1) (S754_finite s2 m2 e2) = true ->
  s1 = s2 /\ m1 = m2 /\ e1 = e2.
Proof.
  unfold eqb, SFeqb, SFcompare.
  destruct s1, s2; try discriminate;
    destruct (Z.compare_spec e1 e2); try discriminate;
    destruct (Pos.compare_cont Eq m1 m2) eqn:Hm; try discriminate;
    apply Pos.compare_eq in Hm; auto.
Qed.

(** What validity says of a finite float. *)
Lemma valid_finite s m e :
  valid (S754_finite s m e) ->
  Z.max (Zpos (digits2_pos m) + e - 53) (-1074) = e /\ e <= 971.
Proof.
  unfold valid, valid_binary, bounded, canonical_mantissa, fexp, emin, prec, emax.
  intros H. apply andb_true_iff in H. destruct H as [H1 H2].
  apply Z.eqb_eq in H1. apply Z.leb_le in H2. lia.
Qed.

Lemma digits2_pos_le_53 q : Zpos q < 2 ^ 53 -> Zpos (digits2_pos q) <= 53.
Proof.
  intros Hq. pose proof (digits2_pos_bounds q) as [Hlo _].
  destruct (Z_le_gt_dec (Zpos (digits2_pos q)) 53) as [|Hgt]; [assumption |].
  assert (2 ^ 53 <= 2 ^ (Zpos (digits2_pos q) - 1)) by (apply Z.pow_le_mono_r; lia).
  lia.
Qed.

Lemma ofInt_cond_Zopp s q : ofInt (cond_Zopp s (Zpos q)) = binary_round prec emax s q 0.
Proof. destruct s; reflexivity. Qed.

(** [codeF == float64(int(codeF))] holds of every float that is an integer
    within the range of [int], and [int(codeF)] is that integer. *)
Lemma integral_roundtrip f n :
  valid f -> integral f = Some n -> Go.minInt64 <= n <= Go.maxInt64 ->
  toInt f = n /\ eqb f (ofInt (toInt f)) = true.
Proof.
  intros Hv Hi Hr. destruct f as [s | s | | s m e]; try discriminate.
  - injection Hi as <-. split; [reflexivity | destruct s; reflexivity].
  - apply valid_finite in Hv. destruct Hv as [Hc He].
    pose proof (digits2_pos_bounds m) as Hm.
    cbn [integral] in Hi. destruct (0 <=? e) eqn:E0.
    + apply Z.leb_le in E0. injection Hi as <-.
      assert (Hd : Zpos (digits2_pos m) = 53) by lia.
      assert (Ht : toInt (S754_finite s m e) = cond_Zopp s (Zpos m * 2 ^ e)).
      { cbn [toInt]. rewrite Z.shiftl_mul_pow2 by lia.
        replace ((Go.minInt64 <=? cond_Zopp s (Zpos m * 2 ^ e))
                 && (cond_Zopp s (Zpos m * 2 ^ e) <=? Go.maxInt64)) with true; [reflexivity |].
        symmetry. apply andb_true_iff. split; apply Z.leb_le; lia. }
      split; [exact Ht |]. rewrite Ht.
      destruct e as [| ep | ep]; try lia.
      * rewrite Z.mul_1_r, ofInt_cond_Zopp.
        destruct (binary_round_small s m) as (m' & -> & Hm'); [lia |].
        rewrite Hd in *. simpl in Hm'.
        assert (m' = m) as -> by lia. apply eqb_finite_refl.
      * rewrite <- Zpos_iter_xO, ofInt_cond_Zopp.
        rewrite binary_round_shifted by lia. apply eqb_finite_refl.
    + apply Z.leb_gt in E0.
      destruct (Zpos m mod 2 ^ (- e) =? 0) eqn:Em; [| discriminate].
      apply Z.eqb_eq in Em. injection Hi as <-.
      assert (Hp : 0 < 2 ^ (- e)) by (apply Z.pow_pos_nonneg; lia).
      assert (Hq : Zpos m = 2 ^ (- e) * (Zpos m / 2 ^ (- e)))
        by (apply Z.div_exact; lia).
      destruct (Zpos m / 2 ^ (- e)) as [| q | q] eqn:Eq; try lia.
      destruct e as [| ep | k]; try lia. change (- Z.neg k) with (Z.pos k) in *.
      assert (Hmq : m = Pos.iter xO q k).
      { apply Pos2Z.inj. rewrite Zpos_iter_xO. lia. }
      assert (Hdq : Zpos (digits2_pos m) = Zpos (digits2_pos q) + Zpos k)
        by (rewrite Hmq; apply digits2_pos_iter_xO).
      assert (Hd : Zpos (digits2_pos m) = 53) by lia.
      assert (Hlt : Zpos m < 2 ^ 53) by (rewrite <- Hd; lia).
      assert (Ht : toInt (S754_finite s m (Zneg k)) = cond_Zopp s (Zpos q)).
      { cbn [toInt]. rewrite Z.shiftl_div_pow2 by lia. change (- Z.neg k) with (Z.pos k). rewrite Eq.
        replace ((Go.minInt64 <=? cond_Zopp s (Zpos q))
                 && (cond_Zopp s (Zpos q) <=? Go.maxInt64)) with true; [reflexivity |].
        symmetry. apply andb_true_iff. split; apply Z.leb_le; lia. }
      split; [exact Ht |]. rewrite Ht, ofInt_cond_Zopp.
      destruct (binary_round_small s q) as (m' & -> & Hm'); [lia |].
      replace (Zpos (digits2_pos q) - 53) with (Zneg k) by lia.
      replace (53 - Zpos (digits2_pos q)) with (Zpos k) in Hm' by lia.
      assert (m' = m) as -> by lia. apply eqb_finite_refl.
Qed.

(** [codeF != float64(int(codeF))] holds of every float that is not an
    integer: the infinities, NaN, and the finite floats with a fraction. *)
Lemma fraction_rejected f :
  valid f -> integral f = None -> eqb f (ofInt (toInt f)) = false.
Proof.
  intros Hv Hi. destruct f as [s | s | | s m e]; try discriminate.
  - destruct s; reflexivity.
  - reflexivity.
  - apply valid_finite in Hv. destruct Hv as [Hc He].
    pose proof (digits2_pos_bounds m) as Hm.
    cbn [integral] in Hi. destruct (0 <=? e) eqn:E0; [discriminate |].
    apply Z.leb_gt in E0.
    destruct (Zpos m mod 2 ^ (- e) =? 0) eqn:Em; [discriminate |].
    apply Z.eqb_neq in Em.
    assert (Hp : 0 < 2 ^ (- e)) by (apply Z.pow_pos_nonneg; lia).
    assert (Hd : Zpos (digits2_pos m) <= 53) by lia.
    assert (Hlt : Zpos m < 2 ^ 53).
    { apply Z.lt_le_trans with (2 ^ Zpos (digits2_pos m)); [lia |].
      apply Z.pow_le_mono_r; lia. }
    assert (Hq : 0 <= Zpos m / 2 ^ (- e) <= Zpos m).
    { split; [apply Z.div_pos; lia |]. apply Z.div_le_upper_bound; nia. }
    assert (Ht : toInt (S754_finite s m e) = cond_Zopp s (Zpos m / 2 ^ (- e))).
    { cbn [toInt]. rewrite Z.shiftl_div_pow2 by lia.
      replace ((Go.minInt64 <=? cond_Zopp s (Zpos m / 2 ^ (- e)))
               && (cond_Zopp s (Zpos m / 2 ^ (- e)) <=? Go.maxInt64)) with true; [reflexivity |].
      symmetry. apply andb_true_iff.
      split; apply Z.leb_le; destruct s; unfold cond_Zopp, Go.minInt64, Go.maxInt64; lia. }
    rewrite Ht.
    destruct (Zpos m / 2 ^ (- e)) as [| q | q] eqn:Eq; try lia.
    + destruct s; reflexivity.
    + rewrite ofInt_cond_Zopp.
      destruct (binary_round_small s q) as (m' & -> & Hm');
        [apply digits2_pos_le_53; lia |].
      destruct (eqb (S754_finite s m e) _) eqn:Eb; [| reflexivity].
      apply eqb_finite_inv in Eb. destruct Eb as (_ & <- & Ee).
      exfalso. apply Em.
      replace (53 - Zpos (digits2_pos q)) with (- e) in Hm' by lia.
      rewrite Hm'. apply Z.mod_mul. lia.
Qed.

(** It fails of an integer beyond the range of [int]. *)
Lemma beyond_int_rejected f n :
  valid f -> integral f = Some n -> n < Go.minInt64 \/ Go.maxInt64 < n ->
  eqb f (ofInt (toInt f)) = false.
Proof.
  intros Hv Hi Hr. destruct f as [s | s | | s m e]; try discriminate.
  - injection Hi as <-. vm_compute in Hr. destruct Hr; discriminate.
  - assert (Ht : cond_Zopp s (Z.shiftl (Zpos m) e) = n).
    { cbn [integral] in Hi. destruct (0 <=? e) eqn:E0.
      - apply Z.leb_le in E0. rewrite Z.shiftl_mul_pow2 by lia. congruence.
      - apply Z.leb_gt in E0. rewrite Z.shiftl_div_pow2 by lia.
        destruct (Zpos m mod 2 ^ (- e) =? 0); congruence. }
    assert (Hto : toInt (S754_finite s m e) = Go.minInt64).
    { cbn [toInt]. rewrite Ht.
      destruct ((Go.minInt64 <=? n) && (n <=? Go.maxInt64)) eqn:E; [| reflexivity].
      apply andb_true_iff in E. destruct E as [E1 E2].
      apply Z.leb_le in E1. apply Z.leb_le in E2. lia. }
    rewrite Hto.
    change (ofInt Go.minInt64) with (S754_finite true 4503599627370496 11).
    destruct (eqb (S754_finite s m e) _) eqn:Eb; [| reflexivity].
    apply eqb_finite_inv in Eb. destruct Eb as (-> & -> & ->).
    injection Hi as <-. vm_compute in Hr. destruct Hr; discriminate.
Qed.

(** What the test accepts is an integer within the range of [int]. *)
Lemma accepted_integral f :
  valid f -> eqb f (ofInt (toInt f)) = true ->
  exists n, integral f = Some n /\ Go.minInt64 <= n <= Go.maxInt64 /\ toInt f = n.
Proof.
  intros Hv Heq. destruct (integral f) as [n |] eqn:Hi.
  - destruct (Z_le_gt_dec Go.minInt64 n) as [Hlo | Hlo];
      [destruct (Z_le_gt_dec n Go.maxInt64) as [Hhi | Hhi] |].
    + exists n. destruct (integral_roundtrip f n Hv Hi (conj Hlo Hhi)) as [Ht _]. auto.
    + rewrite (beyond_int_rejected f n Hv Hi) in Heq by lia. discriminate.
    + rewrite (beyond_int_rejected f n Hv Hi) in Heq by lia. discriminate.
  - rewrite (fraction_rejected f Hv Hi) in Heq. discriminate.
Qed.

(** X2. The test [codeF == float64(int(codeF))] holds of a [float64] exactly
    when it is an integer within the range of [int] (so of -0, and neither of
    a fraction, an infinity, NaN, nor of an integer from 2^63 on), and
    [int(codeF)] is then that integer. *)
Theorem integer_test_exact f :
  valid f ->
  (eqb f (ofInt (toInt f)) = true
   <-> exists n, integral f = Some n /\ Go.minInt64 <= n <= Go.maxInt64 /\ toInt f = n).
Proof.
  intros Hv. split.
  - apply accepted_integral, Hv.
  - intros (n & Hi & Hr & _). apply (integral_roundtrip f n Hv Hi Hr).
Qed.

Lemma integer_test_exact_sample :
  (eqb (S754_zero true) (ofInt (toInt (S754_zero true))) = true
   <-> exists n, integral (S754_zero true) = Some n
                 /\ Go.minInt64 <= n <= Go.maxInt64 /\ toInt (S754_zero true) = n)
  /\ (eqb (ofInt 403) (ofInt (toInt (ofInt 403))) = true
      <-> exists n, integral (ofInt 403) = Some n
                    /\ Go.minInt64 <= n <= Go.maxInt64 /\ toInt (ofInt 403) = n)
  /\ (eqb (ofInt (2 ^ 63)) (ofInt (toInt (ofInt (2 ^ 63)))) = true
      <-> exists n, integral (ofInt (2 ^ 63)) = Some n
                    /\ Go.minInt64 <= n <= Go.maxInt64 /\ toInt (ofInt (2 ^ 63)) = n).
Proof.
  split; [| split].
  - exact (integer_test_exact (S754_zero true) eq_refl).
  - exact (integer_test_exact (ofInt 403) eq_refl).
  - exact (integer_test_exact (ofInt (2 ^ 63)) eq_refl).
Defined.

End Float64.

(** ** net/http constants *)

Module Http.

Definition StatusBadRequest : Z := 400.
Definition StatusRequestTimeout : Z := 408.
Definition StatusRequestEntityTooLarge : Z := 413.
Definition StatusInternalServerError : Z := 500.
Definition StatusBadGateway : Z := 502.
Definition StatusOK : Z := 200.

End Http.

(** ** control/js/error.go *)

Module Js.

(** A value held in an [interface{}], by dynamic type. *)
Inductive value : Type :=
| VNil
| VBool (b : bool)
| VInt (n : Z)
| VFloat64 (f : Float64.float64)
| VString (s : string)
| VSlice (l : list value)
| VMap (m : gmap string value)
| VFunc.

(** A non-nil [error], by dynamic type: [*command.RetryError], or any other
    type, of which the code only reads the text of [Error()]. Of the other
    types, [OtherError] is an error that is its text and nothing more, as
    [fmt.Errorf] makes them, and [StatusError] is an error that holds a
    status code and a body next to the text its [Error()] returns. *)
Inductive error : Type :=
| RetryError (Seconds : Z)
| StatusError (code : Z) (body : Go.bytes) (text : string)
| OtherError (text : string).

(** [netutils.HttpError] *)
Record HttpError : Type := mkHttpError {
  StatusCode : Z;
  Status : string;
  Body : Go.bytes
}.

(** What error.go uses of other packages: [http.StatusText], [json.Marshal],
    and the [Error] method of [command.RetryError]. *)
Class Imports : Type := {
  StatusText : Z -> string;
  Marshal : value -> Go.bytes + error;
  RetryErrorText : Z -> string
}.

(** Early return on an error: [x <- e ;; k] is [x, err := e; if err != nil
    { return nil, err }; k]. *)
Definition bind {A B : Type} (e : A + error) (k : A -> B + error) : B + error :=
  match e with
  | inl x => k x
  | inr err => inr err
  end.

Definition orFail {A : Type} (o : option A) (err : error) : A + error :=
  match o with
  | Some x => inl x
  | None => inr err
  end.

#[local] Notation "x <- e ;; k" := (bind e (fun x => k))
  (at level 100, e at next level, right associativity).

Section Translation.
Context `{Imports}.

Definition Error (e : error) : string :=
  match e with
  | RetryError s => RetryErrorText s
  | StatusError _ _ text => text
  | OtherError text => text
  end.

(** [fmt.Errorf(format)] and [fmt.Errorf(format + "%s", err)] *)
Definition Errorf (text : string) : error := OtherError text.
Definition Errorf_s (text : string) (err : error) : error :=
  OtherError (text ++ Error err).

Definition errorToJs (inErr : error) : gmap string value :=
  match inErr with
  | RetryError Seconds =>
      <["type" := VString "retry"]>
      (<["retry-seconds" := VInt Seconds]>
      (<["code" := VInt 429]>
      (<["message" := VString "Too Many Requests"]>
      (<["body" := VString "Too Many Requests"]> ∅))))
  | _ =>
      <["type" := VString "internal"]>
      (<["code" := VInt Http.StatusInternalServerError]>
      (<["body" := VString (StatusText Http.StatusInternalServerError)]>
      (<["message" := VString (Error inErr)]> ∅)))
  end.

Definition errorFromDict (m : gmap string value) : HttpError + error :=
  codeI <- orFail (m !! "code") (Errorf "Expected 'code' parameter") ;;
  codeF <- orFail
             match codeI with
             | VFloat64 codeF =>
                 if negb (Float64.eqb codeF (Float64.ofInt (Float64.toInt codeF)))
                 then None else Some codeF
             | _ => None
             end
             (Errorf "Parameter 'code' should be integer") ;;
  message <- match m !! "message" with
             | None => inl (StatusText (Float64.toInt codeF))
             | Some (VString message) => inl message
             | Some _ => inr (Errorf "Parameter 'message' should be a string")
             end ;;
  bodyI <- orFail (m !! "body") (Errorf "Expected 'body' parameter") ;;
  bodyBytes <- match Marshal bodyI with
               | inl bodyBytes => inl bodyBytes
               | inr err => inr (Errorf_s "Failed to serialize body to json: " err)
               end ;;
  inl (mkHttpError (Float64.toInt codeF) message bodyBytes).

Definition errorFromJs (inErr : value) : HttpError + error :=
  match inErr with
  | VMap err => errorFromDict err
  | _ => inr (Errorf "Unsupported error type")
  end.

End Translation.

(** The scripting engine has one number type: a mapping that went through it
    holds every [int] as the [float64] of the same value. *)
Definition jsNumber (v : value) : value :=
  match v with
  | VInt n => VFloat64 (Float64.ofInt n)
  | _ => v
  end.

Definition jsNumbers (m : gmap string value) : gmap string value := jsNumber <$> m.

(** The malformed mappings: no code, a code that is not a number or not an
    integer, a message that is not a string, no body, a body without a JSON
    encoding. *)
Inductive Malformed `{Imports} (m : gmap string value) : Prop :=
| MissingCode :
    m !! "code" = None -> Malformed m
| CodeNotNumber (v : value) :
    m !! "code" = Some v -> (forall f, v <> VFloat64 f) -> Malformed m
| CodeNotIntegral (f : Float64.float64) :
    m !! "code" = Some (VFloat64 f) -> Float64.valid f ->
    Float64.integral f = None -> Malformed m
| MessageNotString (v : value) :
    m !! "message" = Some v -> (forall s, v <> VString s) -> Malformed m
| MissingBody :
    m !! "body" = None -> Malformed m
| BodyNotSerializable (v : value) (err : error) :
    m !! "body" = Some v -> Marshal v = inr err -> Malformed m.

(** *** Samples to evaluate the translation on

    [encoding/json] on strings that need no escaping (a [func] has no
    encoding; the other values are left out of the sample), and the reason
    phrases of the status codes used here. *)

Definition quoted (s : string) : Go.bytes :=
  Byte.x22 :: list_byte_of_string s ++ [Byte.x22].

Definition sampleMarshal (v : value) : Go.bytes + error :=
  match v with
  | VString s => inl (quoted s)
  | VFunc => inr (OtherError "json: unsupported type: func()")
  | _ => inr (OtherError "json: not part of the sample")
  end.

Definition sampleStatusText (code : Z) : string :=
  if code =? 200 then "OK"
  else if code =? 400 then "Bad Request"
  else if code =? 403 then "Forbidden"
  else if code =? 404 then "Not Found"
  else if code =? 408 then "Request Timeout"
  else if code =? 413 then "Request Entity Too Large"
  else if code =? 500 then "Internal Server Error"
  else if code =? 502 then "Bad Gateway"
  else "".

#[local] Instance sampleImports : Imports := {|
  StatusText := sampleStatusText;
  Marshal := sampleMarshal;
  RetryErrorText := fun _ => "retry"
|}.

(** [{code: 403, message: "Forbidden", body: "nope"}] *)
Definition forbidden : gmap string value :=
  <["code" := VFloat64 (Float64.ofInt 403)]>
  (<["message" := VString "Forbidden"]>
  (<["body" := VString "nope"]> ∅)).

Section TranslationFacts.
Context `{Imports}.

Lemma errorFromDict_code (m : gmap string value) (codeF : Float64.float64) (code : Z) :
  m !! "code" = Some (VFloat64 codeF) ->
  Float64.valid codeF -> Float64.integral codeF = Some code ->
  Go.minInt64 <= code <= Go.maxInt64 ->
  errorFromDict m =
    (message <- match m !! "message" with
                | None => inl (StatusText code)
                | Some (VString message) => inl message
                | Some _ => inr (Errorf "Parameter 'message' should be a string")
                end ;;
     bodyI <- orFail (m !! "body") (Errorf "Expected 'body' parameter") ;;
     bodyBytes <- match Marshal bodyI with
                  | inl bodyBytes => inl bodyBytes
                  | inr err => inr (Errorf_s "Failed to serialize body to json: " err)
                  end ;;
     inl (mkHttpError code message bodyBytes)).
Proof.
  intros Hc Hv Hi Hr.
  destruct (Float64.integral_roundtrip codeF code Hv Hi Hr) as [Ht Heq].
  unfold errorFromDict. rewrite Hc. cbn [orFail bind]. rewrite Heq.
  cbn [negb orFail bind]. rewrite Ht. reflexivity.
Qed.

(** A code that is an integer beyond the range of [int] is refused. *)
Lemma errorFromDict_code_beyond_int
    (m : gmap string value) (codeF : Float64.float64) (code : Z) :
  m !! "code" = Some (VFloat64 codeF) ->
  Float64.valid codeF -> Float64.integral codeF = Some code ->
  code < Go.minInt64 \/ Go.maxInt64 < code ->
  errorFromDict m = inr (Errorf "Parameter 'code' should be integer").
Proof.
  intros Hc Hv Hi Hr. unfold errorFromDict. rewrite Hc. cbn [orFail bind].
  rewrite (Float64.beyond_int_rejected codeF code Hv Hi Hr). reflexivity.
Qed.

(** C7, as the code has it. A mapping whose ['code'] is a [float64] that
    holds an integer within the range of [int], whose ['message'], when
    there is one, is a string, and whose ['body'] [json.Marshal] encodes,
    translates to the [HttpError] with that code as [StatusCode], the message
    (or else [http.StatusText] of the code) as [Status], and the encoding of
    the body as [Body]. *)
Theorem errorFromDict_well_formed
    (m : gmap string value) (codeF : Float64.float64) (code : Z)
    (bodyI : value) (bodyBytes : Go.bytes) :
  m !! "code" = Some (VFloat64 codeF) ->
  Float64.valid codeF -> Float64.integral codeF = Some code ->
  Go.minInt64 <= code <= Go.maxInt64 ->
  (m !! "message" = None \/ exists s, m !! "message" = Some (VString s)) ->
  m !! "body" = Some bodyI -> Marshal bodyI = inl bodyBytes ->
  errorFromDict m =
    inl {| StatusCode := code;
           Status := match m !! "message" with
                     | Some (VString message) => message
                     | _ => StatusText code
                     end;
           Body := bodyBytes |}.
Proof.
  intros Hc Hv Hi Hr Hm Hb HM.
  rewrite (errorFromDict_code m codeF code Hc Hv Hi Hr).
  destruct Hm as [-> | [s ->]]; cbn [bind]; rewrite Hb; cbn [orFail bind];
    rewrite HM; reflexivity.
Qed.

(** C8. A malformed mapping translates to an error, never to an
    [HttpError]: no default stands in for the field that is missing or
    of the wrong kind. *)
Theorem errorFromDict_malformed (m : gmap string value) :
  Malformed m -> exists err, errorFromDict m = inr err.
Proof.
  intros [Hc | v Hc Hv | f Hc Hv Hi | v Hm Hv | Hb | v err Hb HM];
    unfold errorFromDict.
  - rewrite Hc. eauto.
  - rewrite Hc. cbn [orFail bind].
    destruct v; try (eexists; reflexivity). destruct (Hv f); reflexivity.
  - rewrite Hc. cbn [orFail bind].
    rewrite (Float64.fraction_rejected f Hv Hi). eauto.
  - destruct (m !! "code") as [codeI |]; [| eauto]. cbn [orFail bind].
    destruct (match codeI with VFloat64 _ => _ | _ => _ end); [| eauto].
    cbn [orFail bind]. rewrite Hm.
    destruct v; try (eexists; reflexivity). destruct (Hv s); reflexivity.
  - destruct (m !! "code") as [codeI |]; [| eauto]. cbn [orFail bind].
    destruct (match codeI with VFloat64 _ => _ | _ => _ end); [| eauto].
    cbn [orFail bind].
    destruct (match m !! "message" with Some _ => _ | None => _ end); [| eauto].
    cbn [bind]. rewrite Hb. eauto.
  - destruct (m !! "code") as [codeI |]; [| eauto]. cbn [orFail bind].
    destruct (match codeI with VFloat64 _ => _ | _ => _ end); [| eauto].
    cbn [orFail bind].
    destruct (match m !! "message" with Some _ => _ | None => _ end); [| eauto].
    cbn [bind]. rewrite Hb. cbn [orFail bind]. rewrite HM. eauto.
Qed.

Lemma errorToJs_code (e : error) :
  exists n, errorToJs e !! "code" = Some (VInt n)
            /\ n = match e with RetryError _ => 429 | _ => 500 end.
Proof. destruct e; eexists; split; reflexivity. Qed.

Lemma errorFromDict_jsNumbers_retry (seconds : Z) :
  errorFromDict (jsNumbers (errorToJs (RetryError seconds)))
  = (bodyBytes <- match Marshal (VString "Too Many Requests") with
                  | inl bodyBytes => inl bodyBytes
                  | inr err => inr (Errorf_s "Failed to serialize body to json: " err)
                  end ;;
     inl (mkHttpError 429 "Too Many Requests" bodyBytes)).
Proof.
  rewrite (errorFromDict_code _ (Float64.ofInt 429) 429);
    [reflexivity | reflexivity | reflexivity | reflexivity | vm_compute; split; discriminate].
Qed.

(** The mapping of an error that is no [RetryError]: constants, and the text
    of the error. *)
Definition internal (text : string) : gmap string value :=
  <["type" := VString "internal"]>
  (<["code" := VInt 500]>
  (<["body" := VString (StatusText 500)]>
  (<["message" := VString text]> ∅))).

Lemma errorToJs_internal (e : error) :
  (forall seconds, e <> RetryError seconds) -> errorToJs e = internal (Error e).
Proof.
  intros Hno. destruct e as [seconds | code body text | text]; [| reflexivity ..].
  destruct (Hno seconds); reflexivity.
Qed.

Lemma errorFromDict_jsNumbers_internal (text : string) :
  errorFromDict (jsNumbers (internal text))
  = (bodyBytes <- match Marshal (VString (StatusText 500)) with
                  | inl bodyBytes => inl bodyBytes
                  | inr err => inr (Errorf_s "Failed to serialize body to json: " err)
                  end ;;
     inl (mkHttpError 500 text bodyBytes)).
Proof.
  rewrite (errorFromDict_code _ (Float64.ofInt 500) 500);
    [reflexivity | reflexivity | reflexivity | reflexivity | vm_compute; split; discriminate].
Qed.

(** C9, as the code has it. Both directions lose. [errorToJs] keeps the
    seconds of a [RetryError], under ['retry-seconds'], and of any other
    error the text of [Error()] and nothing else: code 500 and the body are
    constants, so errors with the same text, whatever status code and body
    they hold, have one mapping. [errorFromDict] reads ['code'], ['message']
    and ['body'] and nothing else; it refuses the mappings of [errorToJs],
    whose codes are [int]s; and once the numbers are [float64]s, every
    [RetryError] comes back as the same 429 [HttpError], and any other error
    as a 500 [HttpError] with the error's text as [Status]. *)
Theorem errorToJs_errorFromJs :
  (forall seconds1 seconds2,
     errorToJs (RetryError seconds1) = errorToJs (RetryError seconds2) ->
     seconds1 = seconds2)
  /\ (forall e, (forall seconds, e <> RetryError seconds) ->
        errorToJs e
        = <["type" := VString "internal"]>
          (<["code" := VInt 500]>
          (<["body" := VString (StatusText 500)]>
          (<["message" := VString (Error e)]> ∅))))
  /\ (forall e1 e2,
        (forall seconds, e1 <> RetryError seconds) ->
        (forall seconds, e2 <> RetryError seconds) ->
        Error e1 = Error e2 -> errorToJs e1 = errorToJs e2)
  /\ (forall code1 body1 code2 body2 text,
        errorToJs (StatusError code1 body1 text)
        = errorToJs (StatusError code2 body2 text))
  /\ (forall m1 m2 : gmap string value,
        m1 !! "code" = m2 !! "code" -> m1 !! "message" = m2 !! "message" ->
        m1 !! "body" = m2 !! "body" -> errorFromDict m1 = errorFromDict m2)
  /\ (forall e, errorFromJs (VMap (errorToJs e))
                = inr (Errorf "Parameter 'code' should be integer"))
  /\ (forall seconds1 seconds2,
        errorFromJs (VMap (jsNumbers (errorToJs (RetryError seconds1))))
        = errorFromJs (VMap (jsNumbers (errorToJs (RetryError seconds2)))))
  /\ (forall seconds bodyBytes,
        Marshal (VString "Too Many Requests") = inl bodyBytes ->
        errorFromJs (VMap (jsNumbers (errorToJs (RetryError seconds))))
        = inl (mkHttpError 429 "Too Many Requests" bodyBytes))
  /\ (forall e bodyBytes,
        (forall seconds, e <> RetryError seconds) ->
        Marshal (VString (StatusText 500)) = inl bodyBytes ->
        errorFromJs (VMap (jsNumbers (errorToJs e)))
        = inl (mkHttpError 500 (Error e) bodyBytes)).
Proof.
  refine (conj _ (conj _ (conj _ (conj _ (conj _ (conj _ (conj _ (conj _ _)))))))).
  - intros seconds1 seconds2 Heq.
    apply (f_equal (lookup "retry-seconds")) in Heq. vm_compute in Heq. congruence.
  - intros e He. exact (errorToJs_internal e He).
  - intros e1 e2 He1 He2 Heq.
    rewrite (errorToJs_internal e1 He1), (errorToJs_internal e2 He2), Heq. reflexivity.
  - reflexivity.
  - intros m1 m2 Hc Hm Hb. unfold errorFromDict. rewrite Hc, Hm, Hb. reflexivity.
  - intros e. cbn [errorFromJs]. unfold errorFromDict.
    destruct (errorToJs_code e) as (n & -> & _). reflexivity.
  - intros seconds1 seconds2. cbn [errorFromJs].
    rewrite !errorFromDict_jsNumbers_retry. reflexivity.
  - intros seconds bodyBytes HM. cbn [errorFromJs].
    rewrite errorFromDict_jsNumbers_retry, HM. reflexivity.
  - intros e bodyBytes He HM. cbn [errorFromJs].
    rewrite (errorToJs_internal e He), errorFromDict_jsNumbers_internal, HM. reflexivity.
Qed.

(** The code passed the integer test; the message is left out or a string. *)
Definition codeAccepted (m : gmap string value) : Prop :=
  exists codeF, m !! "code" = Some (VFloat64 codeF)
                /\ Float64.eqb codeF (Float64.ofInt (Float64.toInt codeF)) = true.

Definition messageAccepted (m : gmap string value) : Prop :=
  m !! "message" = None \/ exists s, m !! "message" = Some (VString s).

(** [errorFromDict], field by field. *)
Lemma errorFromDict_steps (m : gmap string value) :
  (m !! "code" = None
   /\ errorFromDict m = inr (Errorf "Expected 'code' parameter"))
  \/ (m !! "code" <> None /\ ~ codeAccepted m
      /\ errorFromDict m = inr (Errorf "Parameter 'code' should be integer"))
  \/ (exists codeF,
        m !! "code" = Some (VFloat64 codeF)
        /\ Float64.eqb codeF (Float64.ofInt (Float64.toInt codeF)) = true
        /\ errorFromDict m
           = (message <- match m !! "message" with
                         | None => inl (StatusText (Float64.toInt codeF))
                         | Some (VString message) => inl message
                         | Some _ => inr (Errorf "Parameter 'message' should be a string")
                         end ;;
              bodyI <- orFail (m !! "body") (Errorf "Expected 'body' parameter") ;;
              bodyBytes <- match Marshal bodyI with
                           | inl bodyBytes => inl bodyBytes
                           | inr err =>
                               inr (Errorf_s "Failed to serialize body to json: " err)
                           end ;;
              inl (mkHttpError (Float64.toInt codeF) message bodyBytes))).
Proof.
  unfold errorFromDict. destruct (m !! "code") as [codeI |] eqn:Hc; [| left; auto].
  right. cbn [orFail bind].
  assert (Hother : (forall f, codeI <> VFloat64 f) -> ~ codeAccepted m).
  { intros Hv (f & Hf & _). rewrite Hc in Hf. injection Hf as ->. exact (Hv f eq_refl). }
  destruct codeI as [| b | n | codeF | t | l | d |];
    try (left; split; [discriminate | split; [apply Hother; discriminate | reflexivity]]).
  destruct (Float64.eqb codeF _) eqn:Heq; cbn [negb orFail bind].
  - right. exists codeF. auto.
  - left. split; [discriminate |]. split; [| reflexivity].
    intros (f & Hf & Hacc). rewrite Hc in Hf. injection Hf as <-. congruence.
Qed.

(** X3. A mapping that [errorFromJs] turns into an [HttpError] is well
    formed, and the [HttpError] holds what the mapping holds: its ['code'] is
    a [float64] that is the integer [StatusCode], its ['message'] is the
    string [Status], or there is none and [Status] is [http.StatusText] of
    the code, and [Body] is what [json.Marshal] makes of its ['body']. *)
Theorem errorFromJs_typed (v : value) (e : HttpError) :
  (forall m f, v = VMap m -> m !! "code" = Some (VFloat64 f) -> Float64.valid f) ->
  errorFromJs v = inl e ->
  exists m codeF bodyI,
    v = VMap m
    /\ m !! "code" = Some (VFloat64 codeF)
    /\ Float64.integral codeF = Some (StatusCode e)
    /\ Go.minInt64 <= StatusCode e <= Go.maxInt64
    /\ (m !! "message" = None /\ Status e = StatusText (StatusCode e)
        \/ m !! "message" = Some (VString (Status e)))
    /\ m !! "body" = Some bodyI /\ Marshal bodyI = inl (Body e).
Proof.
  intros Hvalid Hrun. destruct v as [| | | | | | m |]; try discriminate.
  cbn [errorFromJs] in Hrun.
  destruct (errorFromDict_steps m) as [[_ Hm] | [(_ & _ & Hm) | (codeF & Hc & Heq & Hm)]];
    rewrite Hm in Hrun; try discriminate.
  destruct (Float64.accepted_integral codeF (Hvalid m codeF eq_refl Hc) Heq)
    as (n & Hi & Hr & Ht).
  rewrite Ht in Hrun.
  destruct (m !! "body") as [bodyI |] eqn:Hb.
  2: { destruct (m !! "message") as [[] |]; discriminate. }
  destruct (Marshal bodyI) as [bodyBytes | jsonErr] eqn:HM.
  2: { destruct (m !! "message") as [[] |]; cbn in Hrun; try discriminate;
       rewrite HM in Hrun; discriminate. }
  exists m, codeF, bodyI.
  destruct (m !! "message") as [[] |] eqn:Hmsg; cbn in Hrun; try discriminate;
    rewrite HM in Hrun; injection Hrun as <-; cbn; auto 10.
Qed.

(** X4. A failure of [errorFromJs] names the first thing at fault, in the
    order: not a mapping, no code, a code that fails the integer test, a
    message that is no string, no body, a body that [json.Marshal] refuses
    (whose error text is kept). A later fault is reported only when what
    comes before it is in order. *)
Theorem errorFromJs_failure (v : value) (err : error) :
  errorFromJs v = inr err ->
  ((forall m, v <> VMap m) /\ err = Errorf "Unsupported error type")
  \/ exists m,
       v = VMap m
       /\ ((m !! "code" = None /\ err = Errorf "Expected 'code' parameter")
           \/ (m !! "code" <> None /\ ~ codeAccepted m
               /\ err = Errorf "Parameter 'code' should be integer")
           \/ (codeAccepted m /\ ~ messageAccepted m
               /\ err = Errorf "Parameter 'message' should be a string")
           \/ (codeAccepted m /\ messageAccepted m /\ m !! "body" = None
               /\ err = Errorf "Expected 'body' parameter")
           \/ (codeAccepted m /\ messageAccepted m
               /\ exists bodyI jsonErr,
                    m !! "body" = Some bodyI /\ Marshal bodyI = inr jsonErr
                    /\ err = Errorf_s "Failed to serialize body to json: " jsonErr)).
Proof.
  intros Hrun.
  destruct v as [| | | | | | m |];
    try (left; split; [discriminate | cbn in Hrun; congruence]).
  right. exists m. split; [reflexivity |]. cbn [errorFromJs] in Hrun.
  destruct (errorFromDict_steps m) as [[Hc Hm] | [(Hc & Hno & Hm) | (codeF & Hc & Heq & Hm)]];
    rewrite Hm in Hrun.
  - left. split; [exact Hc | congruence].
  - right. left. split; [exact Hc |]. split; [exact Hno | congruence].
  - right. right.
    assert (Hcode : codeAccepted m) by (exists codeF; auto).
    destruct (m !! "message") as [msg |] eqn:Hmsg.
    + assert (Hstring : (forall s, msg <> VString s) ->
                        ~ messageAccepted m).
      { intros Hs [Hnone | [s Hsome]]; [congruence |].
        rewrite Hmsg in Hsome. injection Hsome as ->. exact (Hs s eq_refl). }
      destruct msg as [| b | n | f | message | l | d |];
        try (left; split; [exact Hcode |];
             split; [apply Hstring; discriminate | cbn in Hrun; congruence]).
      right. assert (Hmessage : messageAccepted m) by (right; exists message; exact Hmsg).
      cbn [bind] in Hrun. destruct (m !! "body") as [bodyI |] eqn:Hb.
      * right. split; [exact Hcode |]. split; [exact Hmessage |].
        cbn [orFail bind] in Hrun.
        destruct (Marshal bodyI) as [bodyBytes | jsonErr] eqn:HM;
          cbn [bind] in Hrun; [discriminate |].
        exists bodyI, jsonErr. split; [reflexivity |]. split; [exact HM | congruence].
      * left. cbn in Hrun. split; [exact Hcode |]. split; [exact Hmessage |].
        split; [reflexivity | congruence].
    + right. assert (Hmessage : messageAccepted m) by (left; exact Hmsg).
      cbn [bind] in Hrun. destruct (m !! "body") as [bodyI |] eqn:Hb.
      * right. split; [exact Hcode |]. split; [exact Hmessage |].
        cbn [orFail bind] in Hrun.
        destruct (Marshal bodyI) as [bodyBytes | jsonErr] eqn:HM;
          cbn [bind] in Hrun; [discriminate |].
        exists bodyI, jsonErr. split; [reflexivity |]. split; [exact HM | congruence].
      * left. cbn in Hrun. split; [exact Hcode |]. split; [exact Hmessage |].
        split; [reflexivity | congruence].
Qed.

End TranslationFacts.

Lemma errorFromDict_forbidden :
  errorFromDict forbidden = inl (mkHttpError 403 "Forbidden" (quoted "nope")).
Proof.
  apply (errorFromDict_well_formed forbidden (Float64.ofInt 403) 403
           (VString "nope") (quoted "nope")).
  - reflexivity.
  - reflexivity.
  - reflexivity.
  - vm_compute. split; discriminate.
  - right. exists "Forbidden"%string. reflexivity.
  - reflexivity.
  - reflexivity.
Defined.

(** C7 as the spec states it fails: a code, a message and a body do not
    make a mapping well formed. With the code 403 as an [int], which is how
    [errorToJs] writes its codes, with 2^63 as code, which is an integer and
    a [float64] but no [int], and with a number as message, the mapping is
    refused. *)
Lemma errorFromDict_int_code_refused :
  errorFromDict (<["code" := VInt 403]> forbidden)
  = inr (OtherError "Parameter 'code' should be integer")
  /\ Float64.integral (Float64.ofInt (2 ^ 63)) = Some (2 ^ 63)
  /\ errorFromDict (<["code" := VFloat64 (Float64.ofInt (2 ^ 63))]> forbidden)
     = inr (OtherError "Parameter 'code' should be integer")
  /\ errorFromDict (<["message" := VFloat64 (Float64.ofInt 403)]> forbidden)
     = inr (OtherError "Parameter 'message' should be a string").
Proof. repeat split; vm_compute; reflexivity. Qed.

(** 403.5, and a mapping for each way of being malformed. *)
Definition fraction : Float64.float64 :=
  binary_normalize Float64.prec Float64.emax 807 (-1) false.

Lemma errorFromDict_malformed_sample :
  (exists err, errorFromDict (delete "code" forbidden) = inr err)
  /\ (exists err, errorFromDict (<["code" := VString "403"]> forbidden) = inr err)
  /\ (exists err, errorFromDict (<["code" := VInt 403]> forbidden) = inr err)
  /\ (exists err, errorFromDict (<["code" := VFloat64 fraction]> forbidden) = inr err)
  /\ (exists err, errorFromDict (<["code" := VFloat64 S754_nan]> forbidden) = inr err)
  /\ (exists err, errorFromDict (<["message" := VInt 5]> forbidden) = inr err)
  /\ (exists err, errorFromDict (delete "body" forbidden) = inr err)
  /\ (exists err, errorFromDict (<["body" := VFunc]> forbidden) = inr err).
Proof.
  repeat split; apply errorFromDict_malformed.
  - apply MissingCode. reflexivity.
  - apply (CodeNotNumber _ (VString "403")); [reflexivity | discriminate].
  - apply (CodeNotNumber _ (VInt 403)); [reflexivity | discriminate].
  - apply (CodeNotIntegral _ fraction); reflexivity.
  - apply (CodeNotIntegral _ S754_nan); reflexivity.
  - apply (MessageNotString _ (VInt 5)); [reflexivity | discriminate].
  - apply MissingBody. reflexivity.
  - apply (BodyNotSerializable _ VFunc (OtherError "json: unsupported type: func()"));
      reflexivity.
Defined.

Lemma errorToJs_errorFromJs_sample :
  errorFromJs (VMap (jsNumbers (errorToJs (RetryError 5))))
  = inl (mkHttpError 429 "Too Many Requests" (quoted "Too Many Requests"))
  /\ errorFromJs (VMap (jsNumbers (errorToJs (OtherError "boom"))))
     = inl (mkHttpError 500 "boom" (quoted "Internal Server Error"))
  /\ errorFromJs (VMap (jsNumbers (errorToJs (StatusError 403 (quoted "nope") "boom"))))
     = inl (mkHttpError 500 "boom" (quoted "Internal Server Error"))
  /\ errorToJs (StatusError 403 (quoted "nope") "boom") = errorToJs (OtherError "boom").
Proof.
  destruct (errorToJs_errorFromJs (H := sampleImports))
    as (_ & _ & Htext & _ & _ & _ & _ & Hretry & Hother).
  refine (conj _ (conj _ (conj _ _))).
  - exact (Hretry 5 (quoted "Too Many Requests") eq_refl).
  - apply (Hother (OtherError "boom") (quoted "Internal Server Error"));
      [discriminate | reflexivity].
  - apply (Hother (StatusError 403 (quoted "nope") "boom") (quoted "Internal Server Error"));
      [discriminate | reflexivity].
  - apply Htext; [discriminate | discriminate | reflexivity].
Defined.

(** C9 as the spec states it fails: [errorFromJs] refuses the mapping that
    [errorToJs] makes of a [RetryError]; with the numbers as [float64]s,
    retrying in 5 and in 10 seconds come back as the same [HttpError], which
    holds no seconds; and an error that holds status 403 and a body has a
    mapping with code 500 and the reason phrase of 500 as body, and comes
    back as a 500 [HttpError]. *)
Lemma errorFromJs_loses_retry_seconds :
  errorFromJs (VMap (errorToJs (RetryError 5)))
  = inr (OtherError "Parameter 'code' should be integer")
  /\ errorToJs (RetryError 5) !! "retry-seconds" = Some (VInt 5)
  /\ errorToJs (RetryError 10) !! "retry-seconds" = Some (VInt 10)
  /\ errorFromJs (VMap (jsNumbers (errorToJs (RetryError 5))))
     = inl (mkHttpError 429 "Too Many Requests" (quoted "Too Many Requests"))
  /\ errorFromJs (VMap (jsNumbers (errorToJs (RetryError 10))))
     = inl (mkHttpError 429 "Too Many Requests" (quoted "Too Many Requests"))
  /\ errorToJs (StatusError 403 (quoted "nope") "Forbidden") !! "code" = Some (VInt 500)
  /\ errorToJs (StatusError 403 (quoted "nope") "Forbidden") !! "body"
     = Some (VString "Internal Server Error")
  /\ errorFromJs (VMap (jsNumbers (errorToJs (StatusError 403 (quoted "nope") "Forbidden"))))
     = inl (mkHttpError 500 "Forbidden" (quoted "Internal Server Error")).
Proof. repeat split; vm_compute; reflexivity. Qed.

Lemma errorFromJs_typed_sample :
  let e := mkHttpError 403 "Forbidden" (quoted "nope") in
  exists m codeF bodyI,
    VMap forbidden = VMap m
    /\ m !! "code" = Some (VFloat64 codeF)
    /\ Float64.integral codeF = Some (StatusCode e)
    /\ Go.minInt64 <= StatusCode e <= Go.maxInt64
    /\ (m !! "message" = None /\ Status e = StatusText (StatusCode e)
        \/ m !! "message" = Some (VString (Status e)))
    /\ m !! "body" = Some bodyI /\ Marshal bodyI = inl (Body e).
Proof.
  apply (errorFromJs_typed (VMap forbidden) (mkHttpError 403 "Forbidden" (quoted "nope"))).
  - intros m f Hv Hc. injection Hv as <-. vm_compute in Hc. injection Hc as <-.
    reflexivity.
  - reflexivity.
Defined.

Lemma errorFromJs_failure_sample :
  ((forall m, VMap (delete "body" (delete "code" forbidden)) <> VMap m)
   /\ Errorf "Expected 'code' parameter" = Errorf "Unsupported error type")
  \/ exists m,
       VMap (delete "body" (delete "code" forbidden)) = VMap m
       /\ ((m !! "code" = None
            /\ Errorf "Expected 'code' parameter" = Errorf "Expected 'code' parameter")
           \/ (m !! "code" <> None /\ ~ codeAccepted m
               /\ Errorf "Expected 'code' parameter"
                  = Errorf "Parameter 'code' should be integer")
           \/ (codeAccepted m /\ ~ messageAccepted m
               /\ Errorf "Expected 'code' parameter"
                  = Errorf "Parameter 'message' should be a string")
           \/ (codeAccepted m /\ messageAccepted m /\ m !! "body" = None
               /\ Errorf "Expected 'code' parameter" = Errorf "Expected 'body' parameter")
           \/ (codeAccepted m /\ messageAccepted m
               /\ exists bodyI jsonErr,
                    m !! "body" = Some bodyI /\ Marshal bodyI = inr jsonErr
                    /\ Errorf "Expected 'code' parameter"
                       = Errorf_s "Failed to serialize body to json: " jsonErr)).
Proof.
  exact (errorFromJs_failure (VMap (delete "body" (delete "code" forbidden)))
           (Errorf "Expected 'code' parameter") eq_refl).
Defined.

End Js.

(** ** proxy.go *)

Module Proxy.

(** [http.Header] *)
Abbreviation Header := (gmap string (list string)).

(** What a [net.Error] answers besides its text. *)
Record NetError : Type := mkNetError {
  Timeout : bool;
  Temporary : bool
}.

(** [http.Response], its body as the bytes it yields. *)
Record Response : Type := mkResponse {
  StatusCode : Z;
  RespHeader : Header;
  RespBody : Go.bytes
}.

(** An [http.ResponseWriter]: the header map [Header()] returns, each call of
    [WriteHeader] with the header map as it stood, and the bytes written. *)
Record ResponseWriter : Type := mkResponseWriter {
  wHeader : Header;
  wroteHeader : list (Z * Header);
  written : Go.bytes
}.

Definition HeaderSet (key value : string) (h : Header) : Header := <[key := [value]]> h.

(** Modelled from the spec: [netutils.CopyHeaders], whose package is not
    among the sources; the spec has the response headers copied verbatim:
    every value of [src] goes to [dst] under its key, after the values [dst]
    holds there already. *)
Definition CopyHeaders (dst src : Header) : Header :=
  union_with (fun held added => Some (held ++ added)) dst src.

Definition WriteHeader (code : Z) (w : ResponseWriter) : ResponseWriter :=
  mkResponseWriter (wHeader w) (wroteHeader w ++ [(code, wHeader w)]) (written w).

(** A [Write] before any [WriteHeader] sends status 200 first. *)
Definition Write (data : Go.bytes) (w : ResponseWriter) : ResponseWriter :=
  let w := match wroteHeader w with
           | [] => WriteHeader Http.StatusOK w
           | _ :: _ => w
           end in
  mkResponseWriter (wHeader w) (wroteHeader w) (written w ++ data).

(** [io.Copy(w, src)]: the bytes [src] yields are written to [w]; there is
    no [Write] when it yields none. *)
Definition Copy (src : Go.bytes) (w : ResponseWriter) : ResponseWriter :=
  match src with
  | [] => w
  | _ :: _ => Write src w
  end.

Definition setHeader (h : Header) (w : ResponseWriter) : ResponseWriter :=
  mkResponseWriter h (wroteHeader w) (written w).

Section Lifecycle.

(** [io.ReadCloser] values (request bodies) and [errors.ProxyError] values;
    package [errors] is not among the sources. *)
Context {ReadCloser ProxyError : Type}.

(** A non-nil [error], by what the type assertions of proxy.go find in it:
    a [*netutils.MaxSizeReachedError], or a value of another type, which may
    implement [net.Error], [errors.ProxyError], both or neither. *)
Inductive error : Type :=
| MaxSizeReachedError (MaxSize : Z)
| ErrorValue (net : option NetError) (proxy : option ProxyError).

(** The type assertions to [net.Error] and to a pointer to
    [netutils.MaxSizeReachedError], of an [err] that may be nil, and the one to
    [errors.ProxyError]. *)
Definition asNetError (err : option error) : option NetError :=
  match err with
  | Some (ErrorValue net _) => net
  | _ => None
  end.

Definition isMaxSizeReachedError (err : option error) : bool :=
  match err with
  | Some (MaxSizeReachedError _) => true
  | _ => false
  end.

Definition asProxyError (err : error) : option ProxyError :=
  match err with
  | ErrorValue _ proxy => proxy
  | MaxSizeReachedError _ => None
  end.

(** A [ProxyError] returned as an [error]. *)
Definition errorOf (e : ProxyError) : error := ErrorValue None (Some e).

(** [*http.Request] *)
Record HttpRequest : Type := mkHttpRequest {
  Method : string;
  URL : string;
  ReqHeader : Header;
  ReqBody : ReadCloser
}.

(** [request.BaseRequest]; it holds the pointer to the [http.Request], whose
    fields are read here as they stand when the request is handed over. *)
Record Request : Type := mkRequest {
  GetHttpRequest : HttpRequest;
  Id : Z;
  Body : option ReadCloser
}.

Definition NewBaseRequest (r : HttpRequest) (id : Z) (body : option ReadCloser) : Request :=
  mkRequest r id body.

(** [request.BodyReader] *)
Definition BodyReader : Type := ReadCloser -> option ReadCloser * option error.

(** [route.Location], with the [BodyReader] it is when it implements one. *)
Record Location : Type := mkLocation {
  RoundTrip : Request -> option Response * option error;
  asBodyReader : option BodyReader
}.

(** [route.Router] *)
Definition Router : Type := Request -> option Location * option error.

(** [errors.Formatter] *)
Definition Formatter : Type := ProxyError -> Z * Go.bytes * string.

Record Options : Type := mkOptions {
  ErrorFormatter : option Formatter
}.

Record Proxy : Type := mkProxy {
  router : Router;
  options : Options;
  lastRequestId : Z
}.

(** [errors.FromStatus], [errors.JsonFormatter] and [request.BaseBodyReader] *)
Context (FromStatus : Z -> ProxyError) (JsonFormatter : Formatter)
        (BaseBodyReader : BodyReader).

(** What the handler calls besides the response writer, oldest first. *)
Inductive call : Type :=
| CallRoute (req : Request)
| CallReadBody (stream : ReadCloser)
| CallRoundTrip (req : Request)
| CallErrorf
| CallClose (body : ReadCloser)
| CallCloseResponse (response : Response)
| CallDiscard (stream : ReadCloser)
| CallFormat (e : ProxyError).

(** The objects behind the handler's three pointers, and the calls made. *)
Record State : Type := mkState {
  p : Proxy;
  w : ResponseWriter;
  r : HttpRequest;
  calls : list call
}.

(** A computation on the state; [None] is a panic (a nil dereference). *)
Definition M (A : Type) : Type := State -> option (A * State).

Definition ret {A : Type} (x : A) : M A := fun s => Some (x, s).

Definition bind {A B : Type} (m : M A) (k : A -> M B) : M B :=
  fun s => match m s with
           | Some (x, s') => k x s'
           | None => None
           end.

#[local] Notation "x <- e ;; k" := (bind e (fun x => k))
  (at level 100, e at next level, right associativity).
#[local] Notation "e ;;; k" := (bind e (fun _ => k))
  (at level 100, right associativity).

Definition get : M State := fun s => Some (s, s).
Definition panic {A : Type} : M A := fun _ => None.

Definition called {A : Type} (c : call) (result : A) : M A :=
  fun s => Some (result, mkState (p s) (w s) (r s) (calls s ++ [c])).

Definition onWriter (f : ResponseWriter -> ResponseWriter) : M unit :=
  fun s => Some (tt, mkState (p s) (f (w s)) (r s) (calls s)).

(** [atomic.AddInt64(&p.lastRequestId, delta)] *)
Definition AddInt64_lastRequestId (delta : Z) : M Z :=
  fun s =>
    let id := Go.wrap64 (lastRequestId (p s) + delta) in
    Some (id, mkState (mkProxy (router (p s)) (options (p s)) id) (w s) (r s) (calls s)).

(** [r.Body = body] *)
Definition setBody (body : ReadCloser) : M unit :=
  fun s =>
    Some (tt, mkState (p s) (w s)
                (mkHttpRequest (Method (r s)) (URL (r s)) (ReqHeader (r s)) body)
                (calls s)).

Definition validateOptions (o : Options) : Options * option error :=
  (match ErrorFormatter o with
   | None => mkOptions (Some JsonFormatter)
   | Some _ => o
   end, None).

Definition NewProxyWithOptions (router : Router) (o : Options) : option Proxy * option error :=
  match validateOptions o with
  | (_, Some err) => (None, Some err)
  | (o, None) => (Some (mkProxy router o 0), None)
  end.

Definition NewProxy (router : Router) : option Proxy * option error :=
  NewProxyWithOptions router (mkOptions None).

Definition GetRouter (p : Proxy) : Router := router p.

Definition proxyRequest : M (option error) :=
  id <- AddInt64_lastRequestId 1 ;;
  s <- get ;;
  let req := NewBaseRequest (r s) id None in
  routed <- called (CallRoute req) (router (p s) req) ;;
  match routed with
  | (_, Some err) => ret (Some err)
  | (None, None) =>
      called CallErrorf tt ;;;
      ret (Some (errorOf (FromStatus Http.StatusBadGateway)))
  | (Some location, None) =>
      let reader := match asBodyReader location with
                    | Some customReader => customReader
                    | None => BaseBodyReader
                    end in
      read <- called (CallReadBody (ReqBody (r s))) (reader (ReqBody (r s))) ;;
      match read with
      | (Some body, None) =>
          setBody body ;;;
          s <- get ;;
          let req := mkRequest (r s) id (Some body) in
          tripped <- called (CallRoundTrip req) (RoundTrip location req) ;;
          result <- match tripped with
                    | (Some response, _) =>
                        onWriter (fun w => setHeader (CopyHeaders (wHeader w) (RespHeader response)) w) ;;;
                        onWriter (WriteHeader (StatusCode response)) ;;;
                        onWriter (Copy (RespBody response)) ;;;
                        called (CallCloseResponse response) tt ;;;
                        ret None
                    | (None, err) => ret err
                    end ;;
          called (CallClose body) tt ;;;
          ret result
      | (_, err) =>
          called CallErrorf tt ;;;
          match asNetError err with
          | Some netErr =>
              if Timeout netErr
              then ret (Some (errorOf (FromStatus Http.StatusRequestTimeout)))
              else if isMaxSizeReachedError err
                   then ret (Some (errorOf (FromStatus Http.StatusRequestEntityTooLarge)))
                   else ret (Some (errorOf (FromStatus Http.StatusBadRequest)))
          | None =>
              if isMaxSizeReachedError err
              then ret (Some (errorOf (FromStatus Http.StatusRequestEntityTooLarge)))
              else ret (Some (errorOf (FromStatus Http.StatusBadRequest)))
          end
      end
  end.

Definition replyError (err : error) : M unit :=
  let proxyError := match asProxyError err with
                    | Some proxyError => proxyError
                    | None => FromStatus Http.StatusBadGateway
                    end in
  s <- get ;;
  called (CallDiscard (ReqBody (r s))) tt ;;;
  match ErrorFormatter (options (p s)) with
  | None => panic
  | Some formatter =>
      formatted <- called (CallFormat proxyError) (formatter proxyError) ;;
      let '(statusCode, body, contentType) := formatted in
      onWriter (fun w => setHeader (HeaderSet "Content-Type" contentType (wHeader w)) w) ;;;
      onWriter (WriteHeader statusCode) ;;;
      onWriter (Write body)
  end.

Definition ServeHTTP : M unit :=
  err <- proxyRequest ;;
  match err with
  | Some err => replyError err
  | None => ret tt
  end.

(** *** The four ways through [proxyRequest] *)

(** The state after the request got its id. *)
Definition identified (s : State) : State :=
  mkState (mkProxy (router (p s)) (options (p s)) (Go.wrap64 (lastRequestId (p s) + 1)))
          (w s) (r s) (calls s).

(** The request handed to the router. *)
Definition routedRequest (s : State) : Request :=
  NewBaseRequest (r s) (Go.wrap64 (lastRequestId (p s) + 1)) None.

(** The request handed to the location, once [body] is buffered. *)
Definition trippedRequest (s : State) (body : ReadCloser) : Request :=
  mkRequest (mkHttpRequest (Method (r s)) (URL (r s)) (ReqHeader (r s)) body)
            (Go.wrap64 (lastRequestId (p s) + 1)) (Some body).

Definition readerOf (location : Location) : BodyReader :=
  match asBodyReader location with
  | Some customReader => customReader
  | None => BaseBodyReader
  end.

Definition withCalls (s : State) (made : list call) : State :=
  mkState (p s) (w s) (r s) (calls s ++ made).

Definition withWriter (s : State) (w' : ResponseWriter) : State :=
  mkState (p s) w' (r s) (calls s).

Definition withBody (s : State) (body : ReadCloser) : State :=
  mkState (p s) (w s) (mkHttpRequest (Method (r s)) (URL (r s)) (ReqHeader (r s)) body)
          (calls s).

(** The response a backend's [response] leaves in the writer. *)
Definition passedOn (response : Response) (w : ResponseWriter) : ResponseWriter :=
  let h := CopyHeaders (wHeader w) (RespHeader response) in
  Copy (RespBody response)
       (mkResponseWriter h (wroteHeader w ++ [(StatusCode response, h)]) (written w)).

(** The response the formatter's answer leaves in the writer. *)
Definition formattedReply (formatted : Z * Go.bytes * string) (w : ResponseWriter)
  : ResponseWriter :=
  let '(statusCode, body, contentType) := formatted in
  let h := <["Content-Type" := [contentType]]> (wHeader w) in
  mkResponseWriter h (wroteHeader w ++ [(statusCode, h)]) (written w ++ body).

(** The status a failed body read is answered with. *)
Definition readFailureStatus (err : option error) : Z :=
  match err with
  | Some (ErrorValue (Some netErr) _) => if Timeout netErr then 408 else 400
  | Some (MaxSizeReachedError _) => 413
  | Some (ErrorValue None _) | None => 400
  end.

Lemma Write_after_WriteHeader (data : Go.bytes) (code : Z) (w0 : ResponseWriter) :
  Write data (WriteHeader code w0)
  = mkResponseWriter (wHeader w0) (wroteHeader w0 ++ [(code, wHeader w0)])
                     (written w0 ++ data).
Proof.
  unfold Write, WriteHeader. cbn [wroteHeader wHeader written].
  destruct (wroteHeader w0 ++ [(code, wHeader w0)]) eqn:E; [| reflexivity].
  destruct (wroteHeader w0); discriminate.
Qed.

(** Calls made one after the other, as one list. *)
Ltac one_list := repeat rewrite <- app_assoc; cbn [app].

Lemma proxyRequest_route_error (s : State) (location : option Location) (err : error) :
  router (p s) (routedRequest s) = (location, Some err) ->
  proxyRequest s
  = Some (Some err, withCalls (identified s) [CallRoute (routedRequest s)]).
Proof.
  intros Hroute. unfold proxyRequest, bind, AddInt64_lastRequestId, get, called.
  cbn. fold (routedRequest s). rewrite Hroute. destruct location; reflexivity.
Qed.

Lemma proxyRequest_no_route (s : State) :
  router (p s) (routedRequest s) = (None, None) ->
  proxyRequest s
  = Some (Some (errorOf (FromStatus 502)),
          withCalls (identified s) [CallRoute (routedRequest s); CallErrorf]).
Proof.
  intros Hroute. unfold proxyRequest, bind, AddInt64_lastRequestId, get, called.
  cbn. fold (routedRequest s). rewrite Hroute. cbn.
  unfold withCalls, identified, ret. cbn. one_list. reflexivity.
Qed.

Lemma proxyRequest_read_failure
    (s : State) (location : Location) (body : option ReadCloser) (err : option error) :
  router (p s) (routedRequest s) = (Some location, None) ->
  readerOf location (ReqBody (r s)) = (body, err) ->
  err <> None \/ body = None ->
  proxyRequest s
  = Some (Some (errorOf (FromStatus (readFailureStatus err))),
          withCalls (identified s)
            [CallRoute (routedRequest s); CallReadBody (ReqBody (r s)); CallErrorf]).
Proof.
  intros Hroute Hread Hfail.
  unfold proxyRequest, bind, AddInt64_lastRequestId, get, called.
  cbn. fold (routedRequest s). rewrite Hroute. cbn.
  fold (readerOf location). rewrite Hread.
  unfold withCalls, identified, ret. cbn.
  destruct body as [body |], err as [[maxSize | [netErr |] proxy] |]; cbn;
    try destruct (Timeout netErr); one_list; try reflexivity.
  destruct Hfail; congruence.
Qed.

Lemma proxyRequest_round_trip
    (s : State) (location : Location) (body : ReadCloser)
    (response : option Response) (err : option error) :
  router (p s) (routedRequest s) = (Some location, None) ->
  readerOf location (ReqBody (r s)) = (Some body, None) ->
  RoundTrip location (trippedRequest s body) = (response, err) ->
  proxyRequest s
  = match response with
    | Some response =>
        Some (None,
              withCalls (withWriter (withBody (identified s) body)
                                    (passedOn response (w s)))
                [CallRoute (routedRequest s); CallReadBody (ReqBody (r s));
                 CallRoundTrip (trippedRequest s body);
                 CallCloseResponse response; CallClose body])
    | None =>
        Some (err,
              withCalls (withBody (identified s) body)
                [CallRoute (routedRequest s); CallReadBody (ReqBody (r s));
                 CallRoundTrip (trippedRequest s body); CallClose body])
    end.
Proof.
  intros Hroute Hread Htrip.
  unfold proxyRequest, bind, AddInt64_lastRequestId, get, called.
  cbn. fold (routedRequest s). rewrite Hroute. cbn.
  fold (readerOf location). rewrite Hread. cbn.
  fold (trippedRequest s body). rewrite Htrip.
  unfold withCalls, withWriter, withBody, identified, ret. cbn.
  destruct response as [response |]; cbn; one_list; reflexivity.
Qed.

Lemma replyError_run (s : State) (err : error) (formatter : Formatter) :
  ErrorFormatter (options (p s)) = Some formatter ->
  let proxyError := match asProxyError err with
                    | Some proxyError => proxyError
                    | None => FromStatus 502
                    end in
  replyError err s
  = Some (tt, withCalls (withWriter s (formattedReply (formatter proxyError) (w s)))
                [CallDiscard (ReqBody (r s)); CallFormat proxyError]).
Proof.
  intros Hfmt proxyError. subst proxyError.
  unfold replyError, bind, get, called, onWriter. cbn. rewrite Hfmt.
  change (FromStatus 502) with (FromStatus Http.StatusBadGateway).
  set (proxyError := match asProxyError err with Some _ => _ | None => _ end).
  destruct (formatter proxyError) as [[statusCode body] contentType].
  cbn -[Write WriteHeader]. rewrite Write_after_WriteHeader. unfold withCalls, withWriter, HeaderSet. cbn.
  one_list. reflexivity.
Qed.

Lemma CopyHeaders_fresh (h : Header) : CopyHeaders ∅ h = h.
Proof. unfold CopyHeaders. apply (left_id ∅ _). Qed.

Lemma CopyHeaders_lookup (dst src : Header) (key : string) :
  CopyHeaders dst src !! key
  = match dst !! key, src !! key with
    | Some held, Some added => Some (held ++ added)
    | Some held, None => Some held
    | None, added => added
    end.
Proof.
  unfold CopyHeaders. rewrite lookup_union_with.
  destruct (dst !! key), (src !! key); reflexivity.
Qed.

Lemma passedOn_fields (response : Response) (w0 : ResponseWriter) :
  let h := CopyHeaders (wHeader w0) (RespHeader response) in
  wHeader (passedOn response w0) = h
  /\ wroteHeader (passedOn response w0) = wroteHeader w0 ++ [(StatusCode response, h)]
  /\ written (passedOn response w0) = written w0 ++ RespBody response.
Proof.
  unfold passedOn, Copy, Write. cbn.
  destruct (RespBody response) as [| b data]; cbn.
  - rewrite app_nil_r. auto.
  - destruct (wroteHeader w0); auto.
Qed.

Lemma formattedReply_fields
    (statusCode : Z) (body : Go.bytes) (contentType : string) (w0 : ResponseWriter) :
  let h := <["Content-Type" := [contentType]]> (wHeader w0) in
  wHeader (formattedReply (statusCode, body, contentType) w0) = h
  /\ wroteHeader (formattedReply (statusCode, body, contentType) w0)
     = wroteHeader w0 ++ [(statusCode, h)]
  /\ written (formattedReply (statusCode, body, contentType) w0) = written w0 ++ body.
Proof. cbn. auto. Qed.

(** [ServeHTTP], by what [proxyRequest] returned. *)
Lemma ServeHTTP_run (s s' : State) (err : option error) :
  proxyRequest s = Some (err, s') ->
  ServeHTTP s = match err with
                | Some err => replyError err s'
                | None => Some (tt, s')
                end.
Proof.
  intros Hrun. unfold ServeHTTP, bind. rewrite Hrun. destruct err; reflexivity.
Qed.

(** *** What the handler guarantees *)

(** C4. When the router returns neither a location nor an error,
    [proxyRequest] returns the 502 error of [errors.FromStatus] after the call
    of the router and the log line: the body is not read, no location is
    asked for a round trip, the router is not asked again, nothing is written. *)
Theorem proxyRequest_no_location (s : State) :
  router (p s) (routedRequest s) = (None, None) ->
  exists s',
    proxyRequest s = Some (Some (errorOf (FromStatus 502)), s')
    /\ calls s' = calls s ++ [CallRoute (routedRequest s); CallErrorf]
    /\ w s' = w s.
Proof.
  intros Hroute. eexists. split; [apply proxyRequest_no_route, Hroute |].
  split; reflexivity.
Qed.


(** C10. When reading the body returns no body and no error, the nil error
    is neither a timeout nor a [MaxSizeReachedError], and [proxyRequest]
    returns the 400 error without a call of the location's [RoundTrip]. *)
Theorem proxyRequest_nil_body_nil_error (s : State) (location : Location) :
  router (p s) (routedRequest s) = (Some location, None) ->
  readerOf location (ReqBody (r s)) = (None, None) ->
  asNetError None = None
  /\ isMaxSizeReachedError None = false
  /\ exists s',
       proxyRequest s = Some (Some (errorOf (FromStatus 400)), s')
       /\ calls s' = calls s ++ [CallRoute (routedRequest s);
                                 CallReadBody (ReqBody (r s)); CallErrorf]
       /\ w s' = w s.
Proof.
  intros Hroute Hread. split; [reflexivity |]. split; [reflexivity |].
  eexists. split.
  - apply (proxyRequest_read_failure s location None None Hroute Hread). auto.
  - split; reflexivity.
Qed.

(** C5. When the location's [RoundTrip] returns a response, [proxyRequest]
    adds the response's headers to the writer's, sends the response's status
    code with them, writes the response's body, closes it, and returns no
    error, so that [ServeHTTP] writes nothing more. A writer that held
    nothing holds the response's headers, status code and body, unchanged. *)
Theorem proxyRequest_passes_response
    (s : State) (location : Location) (body : ReadCloser)
    (response : Response) (err : option error) :
  router (p s) (routedRequest s) = (Some location, None) ->
  readerOf location (ReqBody (r s)) = (Some body, None) ->
  RoundTrip location (trippedRequest s body) = (Some response, err) ->
  exists s',
    proxyRequest s = Some (None, s')
    /\ ServeHTTP s = Some (tt, s')
    /\ calls s' = calls s ++ [CallRoute (routedRequest s);
                              CallReadBody (ReqBody (r s));
                              CallRoundTrip (trippedRequest s body);
                              CallCloseResponse response; CallClose body]
    /\ wHeader (w s') = CopyHeaders (wHeader (w s)) (RespHeader response)
    /\ wroteHeader (w s') = wroteHeader (w s) ++ [(StatusCode response, wHeader (w s'))]
    /\ written (w s') = written (w s) ++ RespBody response
    /\ (w s = mkResponseWriter ∅ [] [] ->
        w s' = mkResponseWriter (RespHeader response)
                 [(StatusCode response, RespHeader response)] (RespBody response)).
Proof.
  intros Hroute Hread Htrip.
  pose proof (proxyRequest_round_trip s location body (Some response) err
                Hroute Hread Htrip) as Hrun.
  destruct (passedOn_fields response (w s)) as (Hh & Hw & Hb).
  eexists. split; [exact Hrun |]. split; [exact (ServeHTTP_run _ _ _ Hrun) |].
  split; [reflexivity |]. cbn [w withCalls withWriter].
  split; [exact Hh |]. split; [rewrite Hh; exact Hw |]. split; [exact Hb |].
  intros Hfresh. rewrite Hfresh in *. cbn in Hh, Hw, Hb.
  rewrite CopyHeaders_fresh in *.
  destruct (passedOn response (mkResponseWriter ∅ [] [])); cbn in *. congruence.
Qed.

(** C6. [replyError] drains the request's body, takes the error itself when
    it is a [ProxyError] and the 502 error of [errors.FromStatus] otherwise,
    and writes what the formatter answers for it: the content type as the
    [Content-Type] header, the status code as the status, the body as the
    body. *)
Theorem replyError_writes_formatted
    (s : State) (err : error) (formatter : Formatter)
    (statusCode : Z) (body : Go.bytes) (contentType : string) :
  ErrorFormatter (options (p s)) = Some formatter ->
  let proxyError := match asProxyError err with
                    | Some proxyError => proxyError
                    | None => FromStatus 502
                    end in
  formatter proxyError = (statusCode, body, contentType) ->
  exists s',
    replyError err s = Some (tt, s')
    /\ calls s' = calls s ++ [CallDiscard (ReqBody (r s)); CallFormat proxyError]
    /\ wHeader (w s') = <["Content-Type" := [contentType]]> (wHeader (w s))
    /\ wroteHeader (w s') = wroteHeader (w s) ++ [(statusCode, wHeader (w s'))]
    /\ written (w s') = written (w s) ++ body.
Proof.
  intros Hfmt proxyError Hformat.
  pose proof (replyError_run s err formatter Hfmt) as Hrun.
  cbv zeta in Hrun. fold proxyError in Hrun. rewrite Hformat in Hrun.
  eexists. split; [exact Hrun |]. split; [reflexivity |].
  cbn. auto.
Qed.


(** X1. [NewProxyWithOptions] never fails. The proxy it makes has as
    formatter the one of the options, or [errors.JsonFormatter] when the
    options hold none, so that [replyError] finds one; options that hold a
    formatter are kept as they are; the router is the one given and the
    request ids start from 0. *)
Lemma NewProxyWithOptions_formatter (route : Router) (o : Options) :
  exists proxy,
    NewProxyWithOptions route o = (Some proxy, None)
    /\ ErrorFormatter (options proxy)
       = Some match ErrorFormatter o with
              | Some formatter => formatter
              | None => JsonFormatter
              end
    /\ options proxy
       = match ErrorFormatter o with
         | Some _ => o
         | None => mkOptions (Some JsonFormatter)
         end
    /\ router proxy = route /\ lastRequestId proxy = 0.
Proof.
  unfold NewProxyWithOptions, validateOptions.
  destruct (ErrorFormatter o) as [formatter |] eqn:Hfmt.
  - exists (mkProxy route o 0). cbn. auto.
  - exists (mkProxy route (mkOptions (Some JsonFormatter)) 0). cbn. auto.
Qed.

(** *** Every way through the handler *)

(** [proxyRequest] takes one of its four ways. *)
Lemma proxyRequest_paths (s : State) :
  (exists location err,
     router (p s) (routedRequest s) = (location, Some err)
     /\ proxyRequest s
        = Some (Some err, withCalls (identified s) [CallRoute (routedRequest s)]))
  \/ (router (p s) (routedRequest s) = (None, None)
      /\ proxyRequest s
         = Some (Some (errorOf (FromStatus 502)),
                 withCalls (identified s) [CallRoute (routedRequest s); CallErrorf]))
  \/ (exists location body err,
        router (p s) (routedRequest s) = (Some location, None)
        /\ readerOf location (ReqBody (r s)) = (body, err)
        /\ (err <> None \/ body = None)
        /\ proxyRequest s
           = Some (Some (errorOf (FromStatus (readFailureStatus err))),
                   withCalls (identified s)
                     [CallRoute (routedRequest s); CallReadBody (ReqBody (r s));
                      CallErrorf]))
  \/ (exists location body response err,
        router (p s) (routedRequest s) = (Some location, None)
        /\ readerOf location (ReqBody (r s)) = (Some body, None)
        /\ RoundTrip location (trippedRequest s body) = (response, err)
        /\ proxyRequest s
           = match response with
             | Some response =>
                 Some (None,
                       withCalls (withWriter (withBody (identified s) body)
                                             (passedOn response (w s)))
                         [CallRoute (routedRequest s); CallReadBody (ReqBody (r s));
                          CallRoundTrip (trippedRequest s body);
                          CallCloseResponse response; CallClose body])
             | None =>
                 Some (err,
                       withCalls (withBody (identified s) body)
                         [CallRoute (routedRequest s); CallReadBody (ReqBody (r s));
                          CallRoundTrip (trippedRequest s body); CallClose body])
             end).
Proof.
  destruct (router (p s) (routedRequest s)) as [[location |] [err |]] eqn:Hroute.
  - left. exists (Some location), err. split; [reflexivity |].
    apply (proxyRequest_route_error s _ err Hroute).
  - right. right.
    destruct (readerOf location (ReqBody (r s))) as [body err] eqn:Hread.
    destruct body as [body |], err as [err |].
    + left. exists location, (Some body), (Some err).
      split; [reflexivity |]. split; [exact Hread |]. split; [left; discriminate |].
      apply (proxyRequest_read_failure s location _ _ Hroute Hread). left. discriminate.
    + right.
      destruct (RoundTrip location (trippedRequest s body)) as [response err] eqn:Htrip.
      exists location, body, response, err.
      split; [reflexivity |]. split; [exact Hread |]. split; [exact Htrip |].
      apply (proxyRequest_round_trip s location body response err Hroute Hread Htrip).
    + left. exists location, None, (Some err).
      split; [reflexivity |]. split; [exact Hread |]. split; [left; discriminate |].
      apply (proxyRequest_read_failure s location _ _ Hroute Hread). left. discriminate.
    + left. exists location, None, None.
      split; [reflexivity |]. split; [exact Hread |]. split; [right; reflexivity |].
      apply (proxyRequest_read_failure s location _ _ Hroute Hread). right. reflexivity.
  - left. exists None, err. split; [reflexivity |].
    apply (proxyRequest_route_error s _ err Hroute).
  - right. left. split; [reflexivity |]. apply (proxyRequest_no_route s Hroute).
Qed.

(** [ServeHTTP] after a way of [proxyRequest] that ended in an error. *)
Lemma ServeHTTP_replies (s s1 : State) (err : error) (formatter : Formatter) :
  proxyRequest s = Some (Some err, s1) ->
  ErrorFormatter (options (p s1)) = Some formatter ->
  ServeHTTP s
  = Some (tt, withCalls
                (withWriter s1
                   (formattedReply
                      (formatter match asProxyError err with
                                 | Some proxyError => proxyError
                                 | None => FromStatus 502
                                 end) (w s1)))
                [CallDiscard (ReqBody (r s1));
                 CallFormat match asProxyError err with
                            | Some proxyError => proxyError
                            | None => FromStatus 502
                            end]).
Proof.
  intros Hrun Hfmt. rewrite (ServeHTTP_run _ _ _ Hrun).
  apply (replyError_run s1 err formatter Hfmt).
Qed.

Lemma formattedReply_wroteHeader (formatted : Z * Go.bytes * string) (w0 : ResponseWriter) :
  exists statusCode header,
    wroteHeader (formattedReply formatted w0) = wroteHeader w0 ++ [(statusCode, header)].
Proof. destruct formatted as [[statusCode body] contentType]. eexists _, _. reflexivity. Qed.

(** A [RoundTrip] among the calls made is the one of the request tried. *)
Ltac tried_request Hin :=
  repeat (apply elem_of_cons in Hin; destruct Hin as [Hin | Hin];
          [first [discriminate | injection Hin as ->; reflexivity] |]);
  apply elem_of_nil in Hin; destruct Hin.

(** X5. Whatever way a request takes, [ServeHTTP] (of a proxy with a
    formatter) returns, and the proxy's counter of request ids has gone up by
    exactly one, wrapping from the largest [int64] to the smallest; the
    router and the options are as before; the first call is the router's,
    with a request of the new id, and a location that is tried gets a request
    of the same id. *)
Theorem ServeHTTP_request_id (s : State) (formatter : Formatter) :
  ErrorFormatter (options (p s)) = Some formatter ->
  exists s' made,
    ServeHTTP s = Some (tt, s')
    /\ lastRequestId (p s') = Go.wrap64 (lastRequestId (p s) + 1)
    /\ (Go.minInt64 <= lastRequestId (p s) < Go.maxInt64 ->
        lastRequestId (p s') = lastRequestId (p s) + 1)
    /\ (lastRequestId (p s) = Go.maxInt64 -> lastRequestId (p s') = Go.minInt64)
    /\ router (p s') = router (p s) /\ options (p s') = options (p s)
    /\ calls s' = calls s ++ CallRoute (routedRequest s) :: made
    /\ Id (routedRequest s) = lastRequestId (p s')
    /\ (forall req, CallRoundTrip req ∈ made -> Id req = lastRequestId (p s')).
Proof.
  intros Hfmt.
  assert (Hstep : Go.minInt64 <= lastRequestId (p s) < Go.maxInt64 ->
                  Go.wrap64 (lastRequestId (p s) + 1) = lastRequestId (p s) + 1)
    by (intros Hr; apply Go.wrap64_in_range; lia).
  assert (Hwrap : lastRequestId (p s) = Go.maxInt64 ->
                  Go.wrap64 (lastRequestId (p s) + 1) = Go.minInt64)
    by (intros ->; reflexivity).
  destruct (proxyRequest_paths s)
    as [(location & err & _ & Hrun)
       | [[_ Hrun]
         | [(location & body & err & _ & _ & _ & Hrun)
           | (location & body & response & err & _ & _ & _ & Hrun)]]].
  1-3: rewrite (ServeHTTP_replies s _ _ formatter Hrun Hfmt);
    eexists _, _; split; [reflexivity |]; cbn -[Go.wrap64];
    (split; [reflexivity |]); (split; [exact Hstep |]); (split; [exact Hwrap |]);
    (split; [reflexivity |]); (split; [reflexivity |]);
    (split; [rewrite <- app_assoc; reflexivity |]); (split; [reflexivity |]);
    intros req Hin; tried_request Hin.
  destruct response as [response |]; [| destruct err as [err |]].
  - rewrite (ServeHTTP_run _ _ _ Hrun).
    eexists _, _. split; [reflexivity |]. cbn -[Go.wrap64].
    split; [reflexivity |]. split; [exact Hstep |]. split; [exact Hwrap |].
    split; [reflexivity |]. split; [reflexivity |]. split; [reflexivity |].
    split; [reflexivity |].
    intros req Hin. tried_request Hin.
  - rewrite (ServeHTTP_replies s _ _ formatter Hrun Hfmt).
    eexists _, _. split; [reflexivity |]. cbn -[Go.wrap64].
    split; [reflexivity |]. split; [exact Hstep |]. split; [exact Hwrap |].
    split; [reflexivity |]. split; [reflexivity |].
    split; [rewrite <- app_assoc; reflexivity |]. split; [reflexivity |].
    intros req Hin. tried_request Hin.
  - rewrite (ServeHTTP_run _ _ _ Hrun).
    eexists _, _. split; [reflexivity |]. cbn -[Go.wrap64].
    split; [reflexivity |]. split; [exact Hstep |]. split; [exact Hwrap |].
    split; [reflexivity |]. split; [reflexivity |]. split; [reflexivity |].
    split; [reflexivity |].
    intros req Hin. tried_request Hin.
Qed.

(** X6. [ServeHTTP] (of a proxy with a formatter) returns for every outcome
    of the router, the reader and the location, and never sends a second
    response: it calls [WriteHeader] once, or not at all, and not at all only
    when the location's [RoundTrip] returned neither a response nor an error,
    where it leaves the writer as it found it. *)
Theorem ServeHTTP_at_most_one_response (s : State) (formatter : Formatter) :
  ErrorFormatter (options (p s)) = Some formatter ->
  exists s',
    ServeHTTP s = Some (tt, s')
    /\ ((exists statusCode header,
           wroteHeader (w s') = wroteHeader (w s) ++ [(statusCode, header)])
        \/ (w s' = w s
            /\ exists location body,
                 router (p s) (routedRequest s) = (Some location, None)
                 /\ readerOf location (ReqBody (r s)) = (Some body, None)
                 /\ RoundTrip location (trippedRequest s body) = (None, None))).
Proof.
  intros Hfmt.
  destruct (proxyRequest_paths s)
    as [(location & err & _ & Hrun)
       | [[_ Hrun]
         | [(location & body & err & _ & _ & _ & Hrun)
           | (location & body & response & err & Hroute & Hread & Htrip & Hrun)]]].
  1-3: rewrite (ServeHTTP_replies s _ _ formatter Hrun Hfmt);
    eexists; split; [reflexivity |]; left; apply formattedReply_wroteHeader.
  destruct response as [response |]; [| destruct err as [err |]].
  - rewrite (ServeHTTP_run _ _ _ Hrun). eexists. split; [reflexivity |]. left.
    destruct (passedOn_fields response (w s)) as (_ & Hw & _). eexists _, _. exact Hw.
  - rewrite (ServeHTTP_replies s _ _ formatter Hrun Hfmt).
    eexists. split; [reflexivity |]. left. apply formattedReply_wroteHeader.
  - rewrite (ServeHTTP_run _ _ _ Hrun). eexists. split; [reflexivity |]. right.
    split; [reflexivity |]. exists location, body. auto.
Qed.

(** X7. An error of the router ends the request there, also when the router
    returned a location with it: no body is read and no location is tried;
    the request's own body is discarded unread, and the formatter is given
    the router's error itself when it is a [ProxyError], the 502 error
    otherwise. The request is left as it was. *)
Theorem ServeHTTP_route_error
    (s : State) (location : option Location) (err : error) (formatter : Formatter) :
  router (p s) (routedRequest s) = (location, Some err) ->
  ErrorFormatter (options (p s)) = Some formatter ->
  let proxyError := match asProxyError err with
                    | Some proxyError => proxyError
                    | None => FromStatus 502
                    end in
  exists s',
    ServeHTTP s = Some (tt, s')
    /\ calls s' = calls s ++ [CallRoute (routedRequest s);
                              CallDiscard (ReqBody (r s)); CallFormat proxyError]
    /\ w s' = formattedReply (formatter proxyError) (w s)
    /\ r s' = r s.
Proof.
  intros Hroute Hfmt proxyError.
  rewrite (ServeHTTP_replies s _ _ formatter
             (proxyRequest_route_error s location err Hroute) Hfmt).
  eexists. split; [reflexivity |]. cbn. rewrite <- app_assoc. auto.
Qed.

(** X8. When the location's [RoundTrip] returns an error and no response,
    the buffered body is closed first, and it is this closed, buffered body
    that [replyError] then discards, not the one the request came with; the
    formatter is given the location's error itself when it is a
    [ProxyError], the 502 error otherwise; the request keeps the buffered
    body. *)
Theorem ServeHTTP_round_trip_error
    (s : State) (location : Location) (body : ReadCloser) (err : error)
    (formatter : Formatter) :
  router (p s) (routedRequest s) = (Some location, None) ->
  readerOf location (ReqBody (r s)) = (Some body, None) ->
  RoundTrip location (trippedRequest s body) = (None, Some err) ->
  ErrorFormatter (options (p s)) = Some formatter ->
  let proxyError := match asProxyError err with
                    | Some proxyError => proxyError
                    | None => FromStatus 502
                    end in
  exists s',
    ServeHTTP s = Some (tt, s')
    /\ calls s' = calls s ++ [CallRoute (routedRequest s);
                              CallReadBody (ReqBody (r s));
                              CallRoundTrip (trippedRequest s body);
                              CallClose body; CallDiscard body; CallFormat proxyError]
    /\ w s' = formattedReply (formatter proxyError) (w s)
    /\ ReqBody (r s') = body.
Proof.
  intros Hroute Hread Htrip Hfmt proxyError.
  rewrite (ServeHTTP_replies s _ _ formatter
             (proxyRequest_round_trip s location body None (Some err)
                Hroute Hread Htrip) Hfmt).
  eexists. split; [reflexivity |]. cbn. rewrite <- app_assoc. auto.
Qed.

(** X9. [ServeHTTP] changes nothing of the request but its body, and that
    only when the reader returned a body and no error: the request then holds
    the buffered body, whatever the location answers; on every other way the
    request holds the body it came with. *)
Theorem ServeHTTP_request_body (s : State) (formatter : Formatter) :
  ErrorFormatter (options (p s)) = Some formatter ->
  exists s',
    ServeHTTP s = Some (tt, s')
    /\ Method (r s') = Method (r s) /\ URL (r s') = URL (r s)
    /\ ReqHeader (r s') = ReqHeader (r s)
    /\ ((exists location body,
           router (p s) (routedRequest s) = (Some location, None)
           /\ readerOf location (ReqBody (r s)) = (Some body, None)
           /\ ReqBody (r s') = body)
        \/ ((forall location body,
               router (p s) (routedRequest s) = (Some location, None) ->
               readerOf location (ReqBody (r s)) <> (Some body, None))
            /\ r s' = r s)).
Proof.
  intros Hfmt.
  destruct (proxyRequest_paths s)
    as [(location & err & Hroute & Hrun)
       | [[Hroute Hrun]
         | [(location & body & err & Hroute & Hread & Hfail & Hrun)
           | (location & body & response & err & Hroute & Hread & Htrip & Hrun)]]].
  1-3: rewrite (ServeHTTP_replies s _ _ formatter Hrun Hfmt);
    eexists; split; [reflexivity |]; cbn; repeat (split; [reflexivity |]);
    right; (split; [| reflexivity]); intros location' body' Hroute' Hread'.
  - congruence.
  - congruence.
  - rewrite Hroute in Hroute'. injection Hroute' as <-.
    rewrite Hread in Hread'. injection Hread' as -> ->.
    destruct Hfail; congruence.
  - destruct response as [response |]; [| destruct err as [err |]].
    + rewrite (ServeHTTP_run _ _ _ Hrun). eexists. split; [reflexivity |]. cbn.
      repeat (split; [reflexivity |]). left. exists location, body. auto.
    + rewrite (ServeHTTP_replies s _ _ formatter Hrun Hfmt).
      eexists. split; [reflexivity |]. cbn.
      repeat (split; [reflexivity |]). left. exists location, body. auto.
    + rewrite (ServeHTTP_run _ _ _ Hrun). eexists. split; [reflexivity |]. cbn.
      repeat (split; [reflexivity |]). left. exists location, body. auto.
Qed.

(** X10. [NewProxy] never fails; the proxy it makes has the router given
    (which [GetRouter] returns) and [errors.JsonFormatter] as its formatter,
    and its [ServeHTTP] returns on every request, whatever the writer and
    the router, the reader and the location do, with the router still in
    place. *)
Theorem NewProxy_serves (route : Router) :
  exists proxy,
    NewProxy route = (Some proxy, None)
    /\ GetRouter proxy = route
    /\ ErrorFormatter (options proxy) = Some JsonFormatter
    /\ forall (w0 : ResponseWriter) (r0 : HttpRequest) (made : list call),
       exists s',
         ServeHTTP (mkState proxy w0 r0 made) = Some (tt, s')
         /\ GetRouter (p s') = route
         /\ ErrorFormatter (options (p s')) = Some JsonFormatter.
Proof.
  exists (mkProxy route (mkOptions (Some JsonFormatter)) 0).
  split; [reflexivity |]. split; [reflexivity |]. split; [reflexivity |].
  intros w0 r0 made.
  set (s := mkState (mkProxy route (mkOptions (Some JsonFormatter)) 0) w0 r0 made).
  assert (Hfmt : ErrorFormatter (options (p s)) = Some JsonFormatter) by reflexivity.
  destruct (proxyRequest_paths s)
    as [(location & err & _ & Hrun)
       | [[_ Hrun]
         | [(location & body & err & _ & _ & _ & Hrun)
           | (location & body & response & err & _ & _ & _ & Hrun)]]].
  1-3: rewrite (ServeHTTP_replies s _ _ JsonFormatter Hrun Hfmt);
    eexists; split; [reflexivity |]; split; reflexivity.
  destruct response as [response |]; [| destruct err as [err |]].
  - rewrite (ServeHTTP_run _ _ _ Hrun). eexists. split; [reflexivity |].
    split; reflexivity.
  - rewrite (ServeHTTP_replies s _ _ JsonFormatter Hrun Hfmt).
    eexists. split; [reflexivity |]. split; reflexivity.
  - rewrite (ServeHTTP_run _ _ _ Hrun). eexists. split; [reflexivity |].
    split; reflexivity.
Qed.

End Lifecycle.

(** *** A proxy to evaluate the handler on

    Streams go by name, a [ProxyError] is its status code, the formatter
    answers with that code, and the default reader buffers what it is given. *)

Definition sampleFormatter : @Formatter Z :=
  fun code => (code, list_byte_of_string "error", "application/json").

Definition sampleReader : @BodyReader string Z :=
  fun stream => (Some ("buffered " ++ stream)%string, None).

Definition sampleResponse : Response :=
  mkResponse 200 {["Content-Type" := ["text/plain"]]}
             (list_byte_of_string "Hi, I'm endpoint").

Definition sampleRequest : @HttpRequest string := mkHttpRequest "GET" "/" ∅ "inbound".

(** A location by what its [RoundTrip] and, when it has one, its own
    [ReadBody] return. *)
Definition sampleLocation
    (tripped : option Response * option (@error Z))
    (reader : option (option string * option (@error Z))) : @Location string Z :=
  mkLocation (fun _ => tripped) (option_map (fun read _ => read) reader).

(** A proxy made by [NewProxyWithOptions], at its first request, by what its
    router returns. *)
Definition sampleStart (routed : option (@Location string Z) * option (@error Z))
  : @State string Z :=
  mkState (mkProxy (fun _ => routed) (mkOptions (Some sampleFormatter)) 0)
          (mkResponseWriter ∅ [] []) sampleRequest [].

Definition timeout : @error Z := ErrorValue (Some (mkNetError true false)) None.

Lemma sampleStart_NewProxy (routed : option (@Location string Z) * option (@error Z)) :
  NewProxyWithOptions sampleFormatter (fun _ => routed) (mkOptions (Some sampleFormatter))
  = (Some (p (sampleStart routed)), None).
Proof. reflexivity. Qed.

Lemma proxyRequest_no_location_sample :
  exists s',
    proxyRequest (fun code => code) sampleReader (sampleStart (None, None))
    = Some (Some (errorOf 502), s')
    /\ calls s' = [CallRoute (mkRequest sampleRequest 1 None); CallErrorf]
    /\ w s' = mkResponseWriter ∅ [] [].
Proof.
  exact (proxyRequest_no_location (fun code => code) sampleReader
           (sampleStart (None, None)) eq_refl).
Defined.


Lemma proxyRequest_nil_body_nil_error_sample :
  @asNetError Z None = None
  /\ @isMaxSizeReachedError Z None = false
  /\ exists s',
       proxyRequest (fun code => code) sampleReader
         (sampleStart (Some (sampleLocation (None, None) (Some (None, None))), None))
       = Some (Some (errorOf 400), s')
       /\ calls s' = [CallRoute (mkRequest sampleRequest 1 None);
                      CallReadBody "inbound"; CallErrorf]
       /\ w s' = mkResponseWriter ∅ [] [].
Proof.
  exact (proxyRequest_nil_body_nil_error (fun code => code) sampleReader
           (sampleStart (Some (sampleLocation (None, None) (Some (None, None))), None))
           _ eq_refl eq_refl).
Defined.

Lemma proxyRequest_passes_response_sample :
  let s := sampleStart (Some (sampleLocation (Some sampleResponse, None) None), None) in
  exists s',
    proxyRequest (fun code => code) sampleReader s = Some (None, s')
    /\ ServeHTTP (fun code => code) sampleReader s = Some (tt, s')
    /\ calls s' = calls s ++ [CallRoute (routedRequest s);
                              CallReadBody (ReqBody (r s));
                              CallRoundTrip (trippedRequest s "buffered inbound");
                              CallCloseResponse sampleResponse;
                              CallClose "buffered inbound"]
    /\ wHeader (w s') = CopyHeaders (wHeader (w s)) (RespHeader sampleResponse)
    /\ wroteHeader (w s') = wroteHeader (w s) ++ [(200, wHeader (w s'))]
    /\ written (w s') = written (w s) ++ list_byte_of_string "Hi, I'm endpoint"
    /\ (w s = mkResponseWriter ∅ [] [] ->
        w s' = mkResponseWriter {["Content-Type" := ["text/plain"]]}
                 [(200, {["Content-Type" := ["text/plain"]]})]
                 (list_byte_of_string "Hi, I'm endpoint")).
Proof.
  exact (proxyRequest_passes_response (fun code => code) sampleReader
           (sampleStart (Some (sampleLocation (Some sampleResponse, None) None), None))
           _ "buffered inbound"%string sampleResponse None eq_refl eq_refl eq_refl).
Defined.

Lemma replyError_writes_formatted_sample :
  let s := sampleStart (None, None) in
  exists s',
    replyError (fun code => code) (MaxSizeReachedError 1024) s = Some (tt, s')
    /\ calls s' = [CallDiscard "inbound"; CallFormat 502]
    /\ wHeader (w s') = {["Content-Type" := ["application/json"]]}
    /\ wroteHeader (w s') = [(502, wHeader (w s'))]
    /\ written (w s') = list_byte_of_string "error".
Proof.
  exact (replyError_writes_formatted (fun code => code)
           (sampleStart (None, None)) (MaxSizeReachedError 1024) sampleFormatter
           502 (list_byte_of_string "error") "application/json" eq_refl eq_refl).
Defined.



(** A [ProxyError] of the sample's own, as a router or a location returns it. *)
Definition tooManyRequests : @error Z := ErrorValue None (Some 429).

(** The sample proxy with its counter at the largest id. *)
Definition sampleLast (routed : option (@Location string Z) * option (@error Z))
  : @State string Z :=
  mkState (mkProxy (fun _ => routed) (mkOptions (Some sampleFormatter)) Go.maxInt64)
          (mkResponseWriter ∅ [] []) sampleRequest [].

Lemma ServeHTTP_request_id_sample :
  let s := sampleLast (Some (sampleLocation (Some sampleResponse, None) None), None) in
  exists s' made,
    ServeHTTP (fun code => code) sampleReader s = Some (tt, s')
    /\ lastRequestId (p s') = Go.wrap64 (lastRequestId (p s) + 1)
    /\ (Go.minInt64 <= lastRequestId (p s) < Go.maxInt64 ->
        lastRequestId (p s') = lastRequestId (p s) + 1)
    /\ (lastRequestId (p s) = Go.maxInt64 -> lastRequestId (p s') = Go.minInt64)
    /\ router (p s') = router (p s) /\ options (p s') = options (p s)
    /\ calls s' = calls s ++ CallRoute (routedRequest s) :: made
    /\ Id (routedRequest s) = lastRequestId (p s')
    /\ (forall req, CallRoundTrip req ∈ made -> Id req = lastRequestId (p s')).
Proof.
  exact (ServeHTTP_request_id (fun code => code) sampleReader
           (sampleLast (Some (sampleLocation (Some sampleResponse, None) None), None))
           sampleFormatter eq_refl).
Defined.

Lemma ServeHTTP_at_most_one_response_sample :
  let s := sampleStart (Some (sampleLocation (None, None) None), None) in
  exists s',
    ServeHTTP (fun code => code) sampleReader s = Some (tt, s')
    /\ ((exists statusCode header,
           wroteHeader (w s') = wroteHeader (w s) ++ [(statusCode, header)])
        \/ (w s' = w s
            /\ exists location body,
                 router (p s) (routedRequest s) = (Some location, None)
                 /\ readerOf sampleReader location (ReqBody (r s)) = (Some body, None)
                 /\ RoundTrip location (trippedRequest s body) = (None, None))).
Proof.
  exact (ServeHTTP_at_most_one_response (fun code => code) sampleReader
           (sampleStart (Some (sampleLocation (None, None) None), None))
           sampleFormatter eq_refl).
Defined.

Lemma ServeHTTP_route_error_sample :
  let s := sampleStart (Some (sampleLocation (Some sampleResponse, None) None),
                        Some tooManyRequests) in
  exists s',
    ServeHTTP (fun code => code) sampleReader s = Some (tt, s')
    /\ calls s' = [CallRoute (mkRequest sampleRequest 1 None);
                   CallDiscard "inbound"; CallFormat 429]
    /\ w s' = formattedReply (sampleFormatter 429) (w s)
    /\ r s' = r s.
Proof.
  exact (ServeHTTP_route_error (fun code => code) sampleReader
           (sampleStart (Some (sampleLocation (Some sampleResponse, None) None),
                         Some tooManyRequests))
           _ tooManyRequests sampleFormatter eq_refl eq_refl).
Defined.

Lemma ServeHTTP_round_trip_error_sample :
  let s := sampleStart (Some (sampleLocation (None, Some timeout) None), None) in
  exists s',
    ServeHTTP (fun code => code) sampleReader s = Some (tt, s')
    /\ calls s' = [CallRoute (mkRequest sampleRequest 1 None);
                   CallReadBody "inbound";
                   CallRoundTrip (trippedRequest s "buffered inbound");
                   CallClose "buffered inbound"; CallDiscard "buffered inbound";
                   CallFormat 502]
    /\ w s' = formattedReply (sampleFormatter 502) (w s)
    /\ ReqBody (r s') = "buffered inbound"%string.
Proof.
  exact (ServeHTTP_round_trip_error (fun code => code) sampleReader
           (sampleStart (Some (sampleLocation (None, Some timeout) None), None))
           _ "buffered inbound"%string timeout sampleFormatter
           eq_refl eq_refl eq_refl eq_refl).
Defined.

Lemma ServeHTTP_request_body_sample :
  let s := sampleStart (Some (sampleLocation (Some sampleResponse, None) None), None) in
  exists s',
    ServeHTTP (fun code => code) sampleReader s = Some (tt, s')
    /\ Method (r s') = Method (r s) /\ URL (r s') = URL (r s)
    /\ ReqHeader (r s') = ReqHeader (r s)
    /\ ((exists location body,
           router (p s) (routedRequest s) = (Some location, None)
           /\ readerOf sampleReader location (ReqBody (r s)) = (Some body, None)
           /\ ReqBody (r s') = body)
        \/ ((forall location body,
               router (p s) (routedRequest s) = (Some location, None) ->
               readerOf sampleReader location (ReqBody (r s)) <> (Some body, None))
            /\ r s' = r s)).
Proof.
  exact (ServeHTTP_request_body (fun code => code) sampleReader
           (sampleStart (Some (sampleLocation (Some sampleResponse, None) None), None))
           sampleFormatter eq_refl).
Defined.

End Proxy.

(** ** location/httploc: a request through a location

    Of this package the sources hold the test, not httploc.go. The round trip
    is modelled from the spec, with the callbacks named as the test names
    them. *)

Module Httploc.

Section RoundTrip.

(** [S] is what the callbacks share and change (the test's [calls] map),
    [LB] the state of the load balancer. *)
Context {Request Response Error Endpoint S LB : Type}.

(** Modelled from the spec: the record of one try against one endpoint, with
    the response or the failure it ended in; httploc.go is missing. *)
Record Attempt : Type := mkAttempt {
  GetEndpoint : Endpoint;
  GetResponse : option Response;
  GetError : option Error
}.

(** Modelled from the spec: a middleware's [OnRequest] returns a response,
    an error or neither, its [OnResponse] sees the attempt. The chain types
    of httploc.go are missing. *)
Record Middleware : Type := mkMiddleware {
  OnRequest : Request -> S -> option Response * option Error * S;
  OnResponse : Request -> Attempt -> S -> S
}.

(** Modelled from the spec: an observer is told of the request and of the
    attempt, and returns nothing; the test builds one from two callbacks. *)
Record Observer : Type := mkObserver {
  ObserveRequest : Request -> S -> S;
  ObserveResponse : Request -> Attempt -> S -> S
}.

(** Modelled from the spec: a location owns one load balancer, one middleware
    chain and one observer chain, each chain in the order of its [Append]s,
    a failover policy and a retry budget; httploc.go is missing. *)
Record Location : Type := mkLocation {
  GetMiddlewareChain : list (string * Middleware);
  GetObserverChain : list (string * Observer);
  NextEndpoint : LB -> option Endpoint * LB;
  backend : Endpoint -> Request -> option Response * option Error;
  ShouldFailover : Attempt -> bool;
  maxAttempts : nat;
  NoAvailableEndpoints : Error
}.

(** What happens during an attempt, oldest first. *)
Inductive event : Type :=
| ObserverRequest (name : string)
| MiddlewareRequest (name : string) (response : option Response) (err : option Error)
| BackendCall (endpoint : Endpoint)
| MiddlewareResponse (name : string)
| ObserverResponse (name : string).

(** Modelled from the spec: [OnRequest] of the middlewares in chain order,
    up to and with the first that returns a response or an error. The result
    holds the middlewares that ran and what the last of them returned. *)
Fixpoint runOnRequest (chain : list (string * Middleware)) (req : Request) (st : S)
  : list (string * Middleware) * (option Response * option Error) * S * list event :=
  match chain with
  | [] => ([], (None, None), st, [])
  | (name, m) :: rest =>
      match OnRequest m req st with
      | (None, None, st) =>
          let '(ran, outcome, st, events) := runOnRequest rest req st in
          ((name, m) :: ran, outcome, st, MiddlewareRequest name None None :: events)
      | (response, err, st) =>
          ([(name, m)], (response, err), st, [MiddlewareRequest name response err])
      end
  end.

(** Modelled from the spec: [OnResponse] in chain order, of the middlewares
    whose [OnRequest] ran in this attempt (none for a middleware appended
    after the one that intercepted). *)
Fixpoint runOnResponse (ran : list (string * Middleware)) (req : Request) (a : Attempt)
    (st : S) : S * list event :=
  match ran with
  | [] => (st, [])
  | (name, m) :: rest =>
      let '(st, events) := runOnResponse rest req a (OnResponse m req a st) in
      (st, MiddlewareResponse name :: events)
  end.

(** Modelled from the spec: the observers are told in chain order, of the
    request and, below, of the attempt. *)
Fixpoint observeRequest (chain : list (string * Observer)) (req : Request) (st : S)
  : S * list event :=
  match chain with
  | [] => (st, [])
  | (name, o) :: rest =>
      let '(st, events) := observeRequest rest req (ObserveRequest o req st) in
      (st, ObserverRequest name :: events)
  end.

Fixpoint observeResponse (chain : list (string * Observer)) (req : Request) (a : Attempt)
    (st : S) : S * list event :=
  match chain with
  | [] => (st, [])
  | (name, o) :: rest =>
      let '(st, events) := observeResponse rest req a (ObserveResponse o req a st) in
      (st, ObserverResponse name :: events)
  end.

(** Modelled from the spec: one attempt against [endpoint]. The observers
    are told of the request (before each attempt, as the observer contract
    has it); the middlewares' [OnRequest] run; the backend is called when
    none of them intercepted; the attempt is recorded; the middlewares'
    [OnResponse] run, then the observers'. *)
Definition attempt (l : Location) (endpoint : Endpoint) (req : Request) (st : S)
  : Attempt * list event * S :=
  let '(st, observed) := observeRequest (GetObserverChain l) req st in
  let '(ran, outcome, st, requested) := runOnRequest (GetMiddlewareChain l) req st in
  let '(outcome, called) :=
    match outcome with
    | (None, None) => (backend l endpoint req, [BackendCall endpoint])
    | _ => (outcome, [])
    end in
  let a := mkAttempt endpoint (fst outcome) (snd outcome) in
  let '(st, responded) := runOnResponse ran req a st in
  let '(st, notified) := observeResponse (GetObserverChain l) req a st in
  (a, observed ++ requested ++ called ++ responded ++ notified, st).

(** Modelled from the spec: the failover loop. Each turn asks the load
    balancer for an endpoint (none left: [NoAvailableEndpoints]), makes an
    attempt, and ends with its outcome unless the policy asks for failover
    and the budget allows another turn; an exhausted budget ends with the
    last attempt's outcome. The result holds every attempt with its events
    and with what the callbacks share, as the attempt found it and as it
    left it. *)
Fixpoint failover (budget : nat) (l : Location) (req : Request)
    (last : option Response * option Error) (lb : LB) (st : S)
  : (option Response * option Error) * list (Attempt * list event * S * S) * LB * S :=
  match budget with
  | O => (last, [], lb, st)
  | Datatypes.S budget =>
      match NextEndpoint l lb with
      | (None, lb) => ((None, Some (NoAvailableEndpoints l)), [], lb, st)
      | (Some endpoint, lb) =>
          let '(a, events, st1) := attempt l endpoint req st in
          let outcome := (GetResponse a, GetError a) in
          if ShouldFailover l a
          then let '(final, attempts, lb, st2) := failover budget l req outcome lb st1 in
               (final, (a, events, st, st1) :: attempts, lb, st2)
          else (outcome, [(a, events, st, st1)], lb, st1)
      end
  end.

(** Modelled from the spec: [Location.RoundTrip], the loop with the
    location's retry budget. *)
Definition RoundTrip (l : Location) (req : Request) (lb : LB) (st : S)
  : (option Response * option Error) * list (Attempt * list event * S * S) * LB * S :=
  failover (maxAttempts l) l req (None, Some (NoAvailableEndpoints l)) lb st.

(** *** One call of each callback

    What the callbacks of a chain make of what they share when each of them
    is called once, in the order of the chain: the observers told of the
    request, the observers told of the attempt, the [OnResponse] of the
    middlewares. *)
Definition toldRequest (chain : list (string * Observer)) (req : Request) (st : S) : S :=
  foldl (fun st o => ObserveRequest o.2 req st) st chain.

Definition toldResponse (chain : list (string * Observer)) (req : Request) (a : Attempt)
    (st : S) : S :=
  foldl (fun st o => ObserveResponse o.2 req a st) st chain.

Definition responded (chain : list (string * Middleware)) (req : Request) (a : Attempt)
    (st : S) : S :=
  foldl (fun st m => OnResponse m.2 req a st) st chain.

(** The same for [OnRequest], of middlewares that all return neither a
    response nor an error; [None] when one of them returns one. *)
Fixpoint passedRequest (chain : list (string * Middleware)) (req : Request) (st : S)
  : option S :=
  match chain with
  | [] => Some st
  | (_, m) :: rest =>
      match OnRequest m req st with
      | (None, None, st) => passedRequest rest req st
      | _ => None
      end
  end.

(** What the callbacks share after the attempts so far. *)
Definition leftBy (st : S) (attempts : list (Attempt * list event * S * S)) : S :=
  List.last (snd <$> attempts) st.

(** How often an event of one kind, under one name, is among [events]. *)
Definition count (kind : event -> option string) (name : string) (events : list event)
  : nat :=
  length (List.filter (fun e => match kind e with
                                | Some n => String.eqb n name
                                | None => false
                                end) events).

Definition onRequestOf (e : event) : option string :=
  match e with MiddlewareRequest name _ _ => Some name | _ => None end.
Definition onResponseOf (e : event) : option string :=
  match e with MiddlewareResponse name => Some name | _ => None end.
Definition observedRequestOf (e : event) : option string :=
  match e with ObserverRequest name => Some name | _ => None end.
Definition observedResponseOf (e : event) : option string :=
  match e with ObserverResponse name => Some name | _ => None end.
Definition backendCallOf (e : event) : bool :=
  match e with BackendCall _ => true | _ => false end.

(** *** Counting events *)

Lemma count_omap (kind : event -> option string) (name : string) (l : list event) :
  count kind name l
  = length (List.filter (fun n => String.eqb n name) (omap kind l)).
Proof.
  unfold count. induction l as [| e l IH]; [reflexivity |].
  cbn. destruct (kind e) as [n |]; cbn; [| exact IH].
  destruct (String.eqb n name); cbn; rewrite IH; reflexivity.
Qed.

Lemma occurs_once (name : string) (names : list string) :
  NoDup names -> name ∈ names ->
  length (List.filter (fun n => String.eqb n name) names) = 1%nat.
Proof.
  intros Hnodup Hin. induction names as [| n names IH]; [inversion Hin |].
  apply NoDup_cons in Hnodup. destruct Hnodup as [Hn Hnodup].
  cbn. destruct (String.eqb_spec n name) as [-> | Hne].
  - cbn. f_equal. clear IH Hin.
    induction names as [| n' names IH]; [reflexivity |].
    apply NoDup_cons in Hnodup. destruct Hnodup as [_ Hnodup].
    apply not_elem_of_cons in Hn. destruct Hn as [Hne Hn].
    cbn. destruct (String.eqb_spec n' name); [congruence |].
    apply IH; assumption.
  - apply elem_of_cons in Hin. destruct Hin as [-> | Hin]; [congruence |].
    apply IH; assumption.
Qed.

Lemma occurs_never (name : string) (names : list string) :
  name ∉ names ->
  length (List.filter (fun n => String.eqb n name) names) = 0%nat.
Proof.
  intros Hn. induction names as [| n names IH]; [reflexivity |].
  apply not_elem_of_cons in Hn. destruct Hn as [Hne Hn].
  cbn. destruct (String.eqb_spec n name); [congruence |]. apply IH, Hn.
Qed.

Lemma omap_named (kind : event -> option string) (f : string -> event)
    (names : list string) :
  (forall n, kind (f n) = Some n) -> omap kind (f <$> names) = names.
Proof.
  intros Hkind. induction names as [| n names IH]; [reflexivity |].
  cbn. rewrite Hkind. cbn. f_equal. exact IH.
Qed.

Lemma omap_unnamed (kind : event -> option string) (l : list event) :
  (forall e, e ∈ l -> kind e = None) -> omap kind l = [].
Proof.
  intros Hnone. induction l as [| e l IH]; [reflexivity |].
  cbn. rewrite (Hnone e) by (apply elem_of_cons; left; reflexivity).
  apply IH. intros e' He'. apply Hnone. apply elem_of_cons; right; exact He'.
Qed.

(** In a list without duplicates an element splits the list in one way. *)
Lemma NoDup_split (x : string) (l1 l2 k1 k2 : list string) :
  NoDup (l1 ++ x :: l2) -> l1 ++ x :: l2 = k1 ++ x :: k2 -> l1 = k1 /\ l2 = k2.
Proof.
  revert k1. induction l1 as [| y l1 IH]; intros k1 Hnodup Heq.
  - destruct k1 as [| z k1]; cbn in Heq; [split; congruence |].
    injection Heq as <- ->. apply NoDup_cons in Hnodup. destruct Hnodup as [Hx _].
    destruct Hx. apply elem_of_app. right. apply elem_of_cons. left. reflexivity.
  - cbn in Hnodup. apply NoDup_cons in Hnodup. destruct Hnodup as [Hy Hnodup].
    destruct k1 as [| z k1]; cbn in Heq.
    + injection Heq as -> <-.
      destruct Hy. apply elem_of_app. right. apply elem_of_cons. left. reflexivity.
    + injection Heq as <- Heq. destruct (IH k1 Hnodup Heq) as [-> ->]. split; reflexivity.
Qed.

(** *** The events of each step *)

Lemma observeRequest_events (chain : list (string * Observer)) (req : Request) (st : S) :
  snd (observeRequest chain req st) = ObserverRequest <$> chain.*1.
Proof.
  revert st. induction chain as [| [name o] chain IH]; intros st; [reflexivity |].
  cbn. specialize (IH (ObserveRequest o req st)).
  destruct (observeRequest chain req _). cbn in *. congruence.
Qed.

Lemma observeResponse_events
    (chain : list (string * Observer)) (req : Request) (a : Attempt) (st : S) :
  snd (observeResponse chain req a st) = ObserverResponse <$> chain.*1.
Proof.
  revert st. induction chain as [| [name o] chain IH]; intros st; [reflexivity |].
  cbn. specialize (IH (ObserveResponse o req a st)).
  destruct (observeResponse chain req a _). cbn in *. congruence.
Qed.

Lemma runOnResponse_events
    (ran : list (string * Middleware)) (req : Request) (a : Attempt) (st : S) :
  snd (runOnResponse ran req a st) = MiddlewareResponse <$> ran.*1.
Proof.
  revert st. induction ran as [| [name m] ran IH]; intros st; [reflexivity |].
  cbn. specialize (IH (OnResponse m req a st)).
  destruct (runOnResponse ran req a _). cbn in *. congruence.
Qed.

(** Each step calls every callback of its chain, once and in order. *)
Lemma observeRequest_state (chain : list (string * Observer)) (req : Request) (st : S) :
  fst (observeRequest chain req st) = toldRequest chain req st.
Proof.
  revert st. induction chain as [| [name o] chain IH]; intros st; [reflexivity |].
  cbn. specialize (IH (ObserveRequest o req st)).
  destruct (observeRequest chain req _). exact IH.
Qed.

Lemma observeResponse_state
    (chain : list (string * Observer)) (req : Request) (a : Attempt) (st : S) :
  fst (observeResponse chain req a st) = toldResponse chain req a st.
Proof.
  revert st. induction chain as [| [name o] chain IH]; intros st; [reflexivity |].
  cbn. specialize (IH (ObserveResponse o req a st)).
  destruct (observeResponse chain req a _). exact IH.
Qed.

Lemma runOnResponse_state
    (ran : list (string * Middleware)) (req : Request) (a : Attempt) (st : S) :
  fst (runOnResponse ran req a st) = responded ran req a st.
Proof.
  revert st. induction ran as [| [name m] ran IH]; intros st; [reflexivity |].
  cbn. specialize (IH (OnResponse m req a st)).
  destruct (runOnResponse ran req a _). exact IH.
Qed.

(** The middlewares that ran are the first of the chain; each left one
    [OnRequest] event; one that returned a response or an error is the last
    that ran, after those before it returned neither, and what it returned
    is the outcome. *)
Lemma runOnRequest_ran (chain : list (string * Middleware)) (req : Request) (st : S) :
  forall ran outcome st' events,
    runOnRequest chain req st = (ran, outcome, st', events) ->
    (exists rest, chain = ran ++ rest)
    /\ omap onRequestOf events = ran.*1
    /\ (forall e, e ∈ events ->
          exists name response err, e = MiddlewareRequest name response err)
    /\ (forall name response err,
          MiddlewareRequest name response err ∈ events ->
          response <> None \/ err <> None ->
          outcome = (response, err)
          /\ exists before m stm,
               ran = before ++ [(name, m)]
               /\ passedRequest before req st = Some stm
               /\ OnRequest m req stm = (response, err, st'))
    /\ (outcome = (None, None) \/
        exists name, MiddlewareRequest name (fst outcome) (snd outcome) ∈ events).
Proof.
  revert st. induction chain as [| [name m] chain IH]; intros st ran outcome st' events Hrun.
  - injection Hrun as <- <- <- <-. split; [exists []; reflexivity |].
    split; [reflexivity |].
    split; [intros e He; inversion He |].
    split; [intros ? ? ? He; inversion He | left; reflexivity].
  - cbn in Hrun.
    destruct (OnRequest m req st) as [[response err] st1] eqn:Hm.
    assert (Hstop : response <> None \/ err <> None ->
                    (ran, outcome, st', events)
                    = ([(name, m)], (response, err), st1,
                       [MiddlewareRequest name response err])).
    { intros Hsome. destruct response, err; try congruence.
      destruct Hsome; congruence. }
    destruct response as [response |]; [| destruct err as [err |]].
    3: { destruct (runOnRequest chain req st1) as [[[ran1 outcome1] st2] events1] eqn:Hrest.
         injection Hrun as <- <- <- <-.
         destruct (IH st1 _ _ _ _ Hrest) as ([rest ->] & Hnames & Hev & Hlast & Hout).
         split; [exists rest; reflexivity |].
         split; [cbn; f_equal; exact Hnames |].
         split; [| split].
         - intros e He. apply elem_of_cons in He. destruct He as [-> | He].
           + eexists _, _, _. reflexivity.
           + exact (Hev e He).
         - intros n rsp er He Hsome. apply elem_of_cons in He. destruct He as [He | He].
           + injection He as -> -> ->. destruct Hsome; congruence.
           + destruct (Hlast n rsp er He Hsome) as [-> (before & m' & stm & -> & Hpass & Hm')].
             split; [reflexivity |]. exists ((name, m) :: before), m', stm.
             split; [reflexivity |]. split; [| exact Hm'].
             cbn. rewrite Hm. exact Hpass.
         - destruct Hout as [-> | [n Hn]]; [left; reflexivity |].
           right. exists n. apply elem_of_cons; right; exact Hn. }
    all: specialize (Hstop ltac:(auto; left; discriminate));
      injection Hstop as -> -> -> ->;
      (split; [exists chain; reflexivity |]);
      (split; [reflexivity |]);
      (split; [intros e He; apply list_elem_of_singleton in He; subst e;
               eexists _, _, _; reflexivity |]);
      (split; [intros n rsp er He _; apply list_elem_of_singleton in He;
               injection He as -> -> ->; split; [reflexivity |];
               exists [], m, st;
               split; [reflexivity | split; [reflexivity | exact Hm]] |]);
      right; exists name; apply elem_of_cons; left; reflexivity.
Qed.

(** The events of a step of one kind are none of another kind. *)
Ltac other_kind :=
  let e := fresh "e" in
  let He := fresh "He" in
  let n := fresh "n" in
  intros e He; apply list_elem_of_fmap in He; destruct He as (n & -> & _); reflexivity.

(** What one attempt leaves behind. *)
Lemma attempt_events (l : Location) (endpoint : Endpoint) (req : Request) (st : S) :
  forall a events st',
    attempt l endpoint req st = (a, events, st') ->
    exists ran rest,
      GetMiddlewareChain l = ran ++ rest
      /\ omap onRequestOf events = ran.*1
      /\ omap onResponseOf events = ran.*1
      /\ omap observedRequestOf events = (GetObserverChain l).*1
      /\ omap observedResponseOf events = (GetObserverChain l).*1
      /\ (forall name response err,
            MiddlewareRequest name response err ∈ events ->
            response <> None \/ err <> None ->
            GetResponse a = response /\ GetError a = err
            /\ (exists before m stm sti,
                  ran = before ++ [(name, m)]
                  /\ passedRequest before req (toldRequest (GetObserverChain l) req st)
                     = Some stm
                  /\ OnRequest m req stm = (response, err, sti)
                  /\ st' = toldResponse (GetObserverChain l) req a
                             (responded ran req a sti))
            /\ forall e, e ∈ events -> backendCallOf e = false).
Proof.
  intros a events st' Hrun. unfold attempt in Hrun.
  pose proof (observeRequest_events (GetObserverChain l) req st) as Hobserved.
  pose proof (observeRequest_state (GetObserverChain l) req st) as Htold.
  destruct (observeRequest (GetObserverChain l) req st) as [st1 observed].
  cbn in Hobserved, Htold.
  destruct (runOnRequest (GetMiddlewareChain l) req st1)
    as [[[ran outcome] st2] requested] eqn:Hrequest.
  destruct (runOnRequest_ran _ _ _ _ _ _ _ Hrequest)
    as ([rest Hchain] & Hnames & Honly & Hlast & _).
  set (decided := match outcome with
                  | (None, None) => (backend l endpoint req, [BackendCall endpoint])
                  | _ => (outcome, [])
                  end) in Hrun.
  destruct decided as [outcome' called] eqn:Hdecided.
  pose proof (runOnResponse_events ran req
                (mkAttempt endpoint (fst outcome') (snd outcome')) st2) as Hresponded.
  pose proof (runOnResponse_state ran req
                (mkAttempt endpoint (fst outcome') (snd outcome')) st2) as Hst3.
  destruct (runOnResponse ran req _ st2) as [st3 answered].
  cbn in Hresponded, Hst3.
  pose proof (observeResponse_events (GetObserverChain l) req
                (mkAttempt endpoint (fst outcome') (snd outcome')) st3) as Hnotified.
  pose proof (observeResponse_state (GetObserverChain l) req
                (mkAttempt endpoint (fst outcome') (snd outcome')) st3) as Hst4.
  destruct (observeResponse (GetObserverChain l) req _ st3) as [st4 notified].
  cbn in Hnotified, Hst4. injection Hrun as <- <- <-.
  assert (Hcalled : called = [] \/ called = [BackendCall endpoint]).
  { subst decided. destruct outcome as [[?|] [?|]]; injection Hdecided as <- <-; auto. }
  assert (Hrequested : forall kind : event -> option string,
             (forall name response err, kind (MiddlewareRequest name response err) = None) ->
             omap kind requested = []).
  { intros kind Hkind. apply omap_unnamed. intros e He.
    destruct (Honly e He) as (n & rsp & er & ->). apply Hkind. }
  assert (Hcalls : forall kind : event -> option string,
             (forall e, kind (BackendCall e) = None) -> omap kind called = []).
  { intros kind Hkind. destruct Hcalled as [-> | ->]; cbn; [| rewrite Hkind]; reflexivity. }
  exists ran, rest. split; [exact Hchain |].
  subst observed answered notified. rewrite !omap_app.
  split; [| split; [| split; [| split]]].
  - rewrite Hnames, Hcalls by reflexivity.
    rewrite !omap_unnamed by other_kind. cbn. apply app_nil_r.
  - rewrite Hrequested, Hcalls by reflexivity.
    rewrite (omap_named onResponseOf MiddlewareResponse) by reflexivity.
    rewrite !omap_unnamed by other_kind. cbn. apply app_nil_r.
  - rewrite Hrequested, Hcalls by reflexivity.
    rewrite (omap_named observedRequestOf ObserverRequest) by reflexivity.
    rewrite !omap_unnamed by other_kind. cbn. apply app_nil_r.
  - rewrite Hrequested, Hcalls by reflexivity.
    rewrite (omap_named observedResponseOf ObserverResponse) by reflexivity.
    rewrite !omap_unnamed by other_kind. reflexivity.
  - intros name response err Hin Hsome.
    assert (Hreq : MiddlewareRequest name response err ∈ requested).
    { rewrite !elem_of_app in Hin.
      destruct Hin as [Hin | [Hin | [Hin | [Hin | Hin]]]]; [| exact Hin | | |].
      - apply list_elem_of_fmap in Hin. destruct Hin as (n & Hn & _). discriminate.
      - destruct Hcalled as [-> | ->]; [inversion Hin |].
        apply list_elem_of_singleton in Hin. discriminate.
      - apply list_elem_of_fmap in Hin. destruct Hin as (n & Hn & _). discriminate.
      - apply list_elem_of_fmap in Hin. destruct Hin as (n & Hn & _). discriminate. }
    destruct (Hlast name response err Hreq Hsome)
      as [-> (before & m & stm & Hran & Hpass & Hm)].
    assert (outcome' = (response, err) /\ called = []) as [-> ->].
    { subst decided. destruct response, err; injection Hdecided as <- <-; auto.
      destruct Hsome; congruence. }
    cbn. split; [reflexivity |]. split; [reflexivity |].
    split.
    { exists before, m, stm, st2. cbn [fst snd] in Hst3, Hst4.
      rewrite <- Htold, <- Hst3, <- Hst4. auto. }
    intros e He. rewrite !elem_of_app, ?elem_of_nil in He.
    decompose [or] He; clear He; try contradiction;
      try match goal with
          | H : e ∈ _ <$> _ |- _ =>
              apply list_elem_of_fmap in H; destruct H as (? & -> & _); reflexivity
          end.
    match goal with
    | H : e ∈ requested |- _ => destruct (Honly e H) as (? & ? & ? & ->); reflexivity
    end.
Qed.

Lemma leftBy_cons (st : S) (x : Attempt * list event * S * S)
    (attempts : list (Attempt * list event * S * S)) :
  leftBy st (x :: attempts) = leftBy x.2 attempts.
Proof.
  unfold leftBy. cbn [fmap list_fmap].
  generalize (x.2) as st1. generalize (snd <$> attempts) as states. clear.
  intros states. revert st. induction states as [| st2 states IH]; intros st st1.
  - reflexivity.
  - change (List.last (st1 :: st2 :: states) st) with (List.last (st2 :: states) st).
    rewrite IH. symmetry. apply IH.
Qed.

(** Every attempt of the loop is an attempt against some endpoint. It finds
    what the callbacks share as the round trip found it, or as the attempt
    before left it, and the round trip leaves it as its last attempt did. *)
Lemma failover_attempts (budget : nat) (l : Location) (req : Request) :
  forall last lb st final attempts lb' st',
    failover budget l req last lb st = (final, attempts, lb', st') ->
    st' = leftBy st attempts
    /\ forall a events st0 st1, (a, events, st0, st1) ∈ attempts ->
         exists endpoint earlier later,
           attempts = earlier ++ (a, events, st0, st1) :: later
           /\ st0 = leftBy st earlier
           /\ attempt l endpoint req st0 = (a, events, st1).
Proof.
  induction budget as [| budget IH]; intros last lb st final attempts lb' st' Hrun.
  - injection Hrun as <- <- <- <-. split; [reflexivity |].
    intros a events st0 st1 Hin. inversion Hin.
  - cbn in Hrun. destruct (NextEndpoint l lb) as [[endpoint |] lb1].
    + destruct (attempt l endpoint req st) as [[a1 events1] st1'] eqn:Hattempt.
      destruct (ShouldFailover l a1).
      * destruct (failover budget l req _ lb1 st1') as [[[final2 attempts2] lb2] st2] eqn:Hrest.
        injection Hrun as <- <- <- <-.
        destruct (IH _ _ _ _ _ _ _ Hrest) as [Hleft Hall].
        split.
        -- rewrite Hleft, leftBy_cons. reflexivity.
        -- intros a events st0 st1 Hin.
           apply elem_of_cons in Hin. destruct Hin as [Hin | Hin].
           ++ injection Hin as -> -> -> ->.
              exists endpoint, [], attempts2. auto.
           ++ destruct (Hall a events st0 st1 Hin)
                as (endpoint' & earlier & later & -> & -> & Htry).
              exists endpoint', ((a1, events1, st, st1') :: earlier), later.
              split; [reflexivity |]. split; [| exact Htry].
              rewrite leftBy_cons. reflexivity.
      * injection Hrun as <- <- <- <-. split; [reflexivity |].
        intros a events st0 st1 Hin.
        apply list_elem_of_singleton in Hin. injection Hin as -> -> -> ->.
        exists endpoint, [], []. auto.
    + injection Hrun as <- <- <- <-. split; [reflexivity |].
      intros a events st0 st1 Hin. inversion Hin.
Qed.


End RoundTrip.

(** *** The test [TestMiddlewareInterceptsRequest]

    A response is its status and body, the callbacks share the test's
    [calls] map, and the load balancer goes round its endpoints. *)

Definition bump (key : string) (calls : gmap string nat) : gmap string nat :=
  <[key := Datatypes.S (default 0%nat (calls !! key))]> calls.

Definition roundRobin (lb : list string * nat) : option string * (list string * nat) :=
  (nth_error (fst lb) (snd lb mod length (fst lb)), (fst lb, Datatypes.S (snd lb))).

Definition forbidden : Z * string := (403, "Intercepted Request"%string).

Definition auth : @Middleware unit (Z * string) string string (gmap string nat) :=
  mkMiddleware (fun _ calls => (Some forbidden, None, bump "authReq" calls))
               (fun _ _ calls => bump "authRe" calls).

Definition cb : @Middleware unit (Z * string) string string (gmap string nat) :=
  mkMiddleware (fun _ calls => (None, None, bump "cbReq" calls))
               (fun _ _ calls => bump "cbRe" calls).

Definition observer : @Observer unit (Z * string) string string (gmap string nat) :=
  mkObserver (fun _ calls => bump "oReq" calls) (fun _ _ calls => bump "oRe" calls).

Definition testLocation
  : @Location unit (Z * string) string string (gmap string nat) (list string * nat) :=
  mkLocation [("auth"%string, auth); ("cb"%string, cb)] [("ob"%string, observer)]
             roundRobin
             (fun _ _ => (Some (200, "Hi, I'm endpoint"%string), None))
             (fun a => match GetError a with Some _ => true | None => false end)
             2 "no available endpoints".

Definition testEvents : list (@event (Z * string) string string) :=
  [ObserverRequest "ob"; MiddlewareRequest "auth" (Some forbidden) None;
   MiddlewareResponse "auth"; ObserverResponse "ob"].

Definition testAttempt : @Attempt (Z * string) string string :=
  mkAttempt "http://localhost:5000"%string (Some forbidden) None.

(** What the test's [calls] map holds in the end. *)
Definition testCalls : gmap string nat :=
  <["authReq" := 1%nat]> (<["authRe" := 1%nat]>
    (<["oReq" := 1%nat]> (<["oRe" := 1%nat]> ∅))).

(** The test's assertions: the client gets the 403 of [auth], whose two
    callbacks ran once; [cb] was not called; the observer was. *)
Lemma TestMiddlewareInterceptsRequest :
  RoundTrip testLocation tt (["http://localhost:5000"%string], 0%nat) ∅
  = ((Some forbidden, None),
     [(testAttempt, testEvents, ∅, testCalls)],
     (["http://localhost:5000"%string], 1%nat),
     testCalls)
  /\ testCalls !! "authReq" = Some 1%nat /\ testCalls !! "authRe" = Some 1%nat
  /\ testCalls !! "cbReq" = None /\ testCalls !! "cbRe" = None
  /\ testCalls !! "oReq" = Some 1%nat /\ testCalls !! "oRe" = Some 1%nat.
Proof. repeat split; vm_compute; reflexivity. Qed.


End Httploc.
